(** * Clutch chaos experimentation: termination monitor and RTDS stream server

    A shallow embedding of the termination monitor
    (package [terminator]: [monitor.Run], [monitorNewExperiments],
    [monitorSingleExperiment], [trackingGauge]) and of the parts of the
    runtime discovery server that the properties below talk about.

    Conventions.
    - Go integers are [Z] with the wrap-around written out.
    - A Go [error] is [option string]: [None] is [nil], [Some msg] is an
      error whose [Error()] text is [msg].
    - Goroutines, tickers and contexts are modelled by explicit event
      lists and by a step relation: the order in which the Go scheduler
      delivers ticks and cancellations is an input of the model. *)

From Stdlib Require Import ZArith Lia.
From stdpp Require Import gmap strings pretty list fin_maps.

Local Open Scope Z_scope.

(* ===================================================================== *)
(** ** Data model *)
(* ===================================================================== *)

(** [google.protobuf.Timestamp]. *)
Record Timestamp := mkTimestamp { Seconds : Z; Nanos : Z }.

(** [google.protobuf.Any]: a type URL and an opaque payload. *)
Record Any := mkAny { TypeUrl : string; Value : string }.

(** [experimentationv1.Experiment] (message [Experiment] of the proto
    file): [fixed64 id], [Any config], [Timestamp start_time],
    [Timestamp end_time].  Message-typed fields are pointers and may be
    nil. *)
Record Experiment := mkExperiment {
  Id : Z;
  Config : option Any;
  StartTime : option Timestamp;
  EndTime : option Timestamp
}.

(** [Experiment.Status]. *)
Inductive Status :=
  | UNSPECIFIED | SCHEDULED | RUNNING | COMPLETED | CANCELED | STOPPED.

(** Wire number of a status, as the proto file assigns it. *)
Definition Status_number (s : Status) : Z :=
  match s with
  | UNSPECIFIED => 0 | SCHEDULED => 1 | RUNNING => 2
  | COMPLETED => 3 | CANCELED => 4 | STOPPED => 5
  end.

(** A Go [error]. *)
Definition error := option string.

(** A [time.Time], as nanoseconds since the Unix epoch. *)
Definition Time := Z.

(** [tt, _ := ptypes.Timestamp(e.StartTime)]: the conversion error is
    dropped by the caller, so only the returned time matters.  A nil
    timestamp yields [time.Unix(0, 0)], any other one
    [time.Unix(ts.Seconds, ts.Nanos)]. *)
Definition ptypes_Timestamp (ts : option Timestamp) : Time :=
  match ts with
  | None => 0
  | Some t => Seconds t * 1000000000 + Nanos t
  end.

(* ===================================================================== *)
(** ** trackingGauge *)
(* ===================================================================== *)

Module TrackingGauge.

Definition uint32_modulus : Z := 2 ^ 32.

(** Wrap a mathematical integer into [uint32]. *)
Definition uint32 (x : Z) : Z := x mod uint32_modulus.

(** [^x] on a [uint32]: bitwise complement. *)
Definition uint32_not (x : Z) : Z := Z.lxor x (Z.ones 32).

(** [atomic.AddUint32(&v, delta)]: returns the new value. *)
Definition AddUint32 (v delta : Z) : Z := uint32 (v + delta).

(** [type trackingGauge struct { gauge tally.Gauge; value uint32 }].
    [gauge] holds the last number handed to [gauge.Update]; the
    conversion [float64(uint32)] is exact, so it is kept as an
    integer. *)
Record trackingGauge := mkGauge { gauge : Z; value : Z }.

Definition new : trackingGauge := {| gauge := 0; value := 0 |}.

(** [t.gauge.Update(float64(atomic.AddUint32(&t.value, 1)))] *)
Definition inc (t : trackingGauge) : trackingGauge :=
  let v := AddUint32 (value t) 1 in
  {| gauge := v; value := v |}.

(** [t.gauge.Update(float64(atomic.AddUint32(&t.value, ^uint32(0))))] *)
Definition dec (t : trackingGauge) : trackingGauge :=
  let v := AddUint32 (value t) (uint32_not 0) in
  {| gauge := v; value := v |}.

(** The value is a well-formed [uint32]. *)
Definition wf (t : trackingGauge) : Prop := 0 <= value t < uint32_modulus.

End TrackingGauge.

(* ===================================================================== *)
(** ** Interfaces consumed by the monitor *)
(* ===================================================================== *)

(** What a call of a Go function can do: return a value, or panic. *)
Inductive Outcome (A : Type) :=
  | Returns (a : A)
  | Panics.
Arguments Returns {A} a.
Arguments Panics {A}.

(** [type TerminationCriteria interface {
       ShouldTerminate(experimentStarted time.Time, config interface{}) error }].
    The monitor passes the experiment itself as [config]. *)
Record TerminationCriteria := mkCriteria {
  ShouldTerminate : Time -> Experiment -> Outcome error
}.

(** [experimentstore.Storer], restricted to the two methods the monitor
    calls.  [S] is the state of the store. *)
Class Storer (S : Type) := {
  GetExperiments : S -> list string -> Status -> S * (list Experiment + string);
  TerminateExperiment : S -> Z -> string -> S * error
}.

(** Calls the inner loop makes on its collaborators, in program order. *)
Inductive Call :=
  | CallShouldTerminate (criterion : nat) (tt : Time) (e : Experiment)
  | CallTerminateExperiment (id : Z) (reason : string) (result : error).

(** Lines written to the logger. *)
Inductive LogLine :=
  | LogFailedToTerminate (err : string) (experimentId : Z)
  | LogTerminated (experimentId : Z).

(** Everything an inner loop can observe or change. *)
Record World (S : Type) := mkWorld {
  store : S;
  terminationCount : Z;      (* sum of [m.terminationCount.Inc(1)] *)
  logged : list LogLine;
  calls : list Call
}.
Arguments mkWorld {S}.
Arguments store {S}.
Arguments terminationCount {S}.
Arguments logged {S}.
Arguments calls {S}.

(** Result of one tick of the inner loop. *)
Inductive TickResult (S : Type) :=
  | TickDone (terminated : bool) (w : World S)
  | TickPanic (w : World S).
Arguments TickDone {S}.
Arguments TickPanic {S}.

(** What the [select] of the inner loop receives. *)
Inductive Select := TickerC | CtxDone.

#[global] Instance Select_eq_dec : EqDecision Select.
Proof. solve_decision. Defined.

(** How far a run of the inner loop got on a finite list of events. *)
Inductive LoopResult (S : Type) :=
  | Blocked (terminated : bool) (w : World S)   (* waiting in [select] *)
  | Returned (w : World S)                      (* [return] on [ctx.Done()] *)
  | Panicked (w : World S).                     (* a panic left the function *)
Arguments Blocked {S}.
Arguments Returned {S}.
Arguments Panicked {S}.

Section InnerLoop.

Context {S : Type} `{Storer S}.

(** Body of [for _, c := range m.criterias { ... }] for the criteria
    from index [i] on.  The flag [terminated] is only written here,
    never read: the loop has no [break]. *)
Fixpoint rangeCriterias (cs : list TerminationCriteria) (i : nat)
    (e : Experiment) (terminated : bool) (w : World S) : TickResult S :=
  match cs with
  | [] => TickDone terminated w
  | c :: cs' =>
    let tt := ptypes_Timestamp (StartTime e) in
    let w1 := mkWorld (store w) (terminationCount w) (logged w)
                      (calls w ++ [CallShouldTerminate i tt e]) in
    match ShouldTerminate c tt e with
    | Panics => TickPanic w1
    | Returns None => rangeCriterias cs' (Datatypes.S i) e terminated w1
    | Returns (Some msg) =>
      let '(s', r) := TerminateExperiment (store w1) (Id e) msg in
      let cl := calls w1 ++ [CallTerminateExperiment (Id e) msg r] in
      match r with
      | Some err =>
        rangeCriterias cs' (Datatypes.S i) e terminated
          (mkWorld s' (terminationCount w1)
                   (logged w1 ++ [LogFailedToTerminate err (Id e)]) cl)
      | None =>
        rangeCriterias cs' (Datatypes.S i) e true
          (mkWorld s' (terminationCount w1 + 1)
                   (logged w1 ++ [LogTerminated (Id e)]) cl)
      end
    end
  end.

(** Body of [case <-ticker.C:]. *)
Definition tick (criterias : list TerminationCriteria) (e : Experiment)
    (terminated : bool) (w : World S) : TickResult S :=
  if terminated then TickDone true w
  else rangeCriterias criterias 0 e terminated w.

(** The [for { select { ... } }] of [monitorSingleExperiment], run on
    the events the [select] receives. *)
Fixpoint selectLoop (criterias : list TerminationCriteria) (e : Experiment)
    (events : list Select) (terminated : bool) (w : World S) : LoopResult S :=
  match events with
  | [] => Blocked terminated w
  | CtxDone :: _ => Returned w
  | TickerC :: rest =>
    match tick criterias e terminated w with
    | TickDone t' w' => selectLoop criterias e rest t' w'
    | TickPanic w' => Panicked w'
    end
  end.

(** [func (m *monitor) monitorSingleExperiment(ctx, e)]. *)
Definition monitorSingleExperiment (criterias : list TerminationCriteria)
    (events : list Select) (e : Experiment) (w : World S) : LoopResult S :=
  selectLoop criterias e events false w.

End InnerLoop.

(** How a goroutine ended. *)
Inductive GoroutineEnd := Running | Finished | UncaughtPanic.

Section Goroutine.

Context {S : Type} `{Storer S}.

(** The goroutine started by [monitorNewExperiments]:
    [go func() { defer m.activeMonitoringRoutines.dec();
                 m.monitorSingleExperiment(ctx, e) }()].
    The deferred [dec] runs when the function returns and when a panic
    unwinds it; nothing calls [recover], so a panic leaves the
    goroutine uncaught. *)
Definition monitoringRoutine (criterias : list TerminationCriteria)
    (events : list Select) (e : Experiment)
    (g : TrackingGauge.trackingGauge) (w : World S)
    : GoroutineEnd * TrackingGauge.trackingGauge * World S :=
  match monitorSingleExperiment criterias events e w with
  | Blocked _ w' => (Running, g, w')
  | Returned w' => (Finished, TrackingGauge.dec g, w')
  | Panicked w' => (UncaughtPanic, TrackingGauge.dec g, w')
  end.

End Goroutine.

(** The [TerminateExperiment] calls in a list of calls. *)
Definition terminateCalls (cl : list Call) : list (Z * string * error) :=
  omap (fun c => match c with
                 | CallTerminateExperiment id r res => Some (id, r, res)
                 | _ => None
                 end) cl.

(** Identity and reason of the [TerminateExperiment] calls, without
    their results. *)
Definition requested (cl : list Call) : list (Z * string) :=
  (fun c => (c.1.1, c.1.2)) <$> terminateCalls cl.

(** The criteria invoked in a list of calls. *)
Definition shouldTerminateCalls (cl : list Call) : list nat :=
  omap (fun c => match c with
                 | CallShouldTerminate i _ _ => Some i
                 | _ => None
                 end) cl.

(** The reasons the criteria [cs] return for [e], in order. *)
Definition firing (cs : list TerminationCriteria) (e : Experiment) : list string :=
  omap (fun c => match ShouldTerminate c (ptypes_Timestamp (StartTime e)) e with
                 | Returns (Some msg) => Some msg
                 | _ => None
                 end) cs.

(** No criterion of [cs] panics on [e]. *)
Definition noPanic (cs : list TerminationCriteria) (e : Experiment) : Prop :=
  Forall (fun c => ShouldTerminate c (ptypes_Timestamp (StartTime e)) e <> Panics) cs.

(* ===================================================================== *)
(** ** The outer loop: [monitor.Run] and [monitorNewExperiments] *)
(* ===================================================================== *)

Module Outer.

Import TrackingGauge.

(** A goroutine started by [monitorNewExperiments]. *)
Record Routine := mkRoutine {
  r_key : Z;           (* [e.Id] at the iteration that started it: the key
                          under which its [cancel] is tracked *)
  r_ctx : nat;         (* the context made by [context.WithCancel] *)
  r_exp : Experiment   (* the value of the loop variable [e] that the
                          goroutine read when it called
                          [m.monitorSingleExperiment(ctx, e)] *)
}.

#[export] Instance Timestamp_eq_dec : EqDecision Timestamp.
Proof. solve_decision. Defined.
#[export] Instance Any_eq_dec : EqDecision Any.
Proof. solve_decision. Defined.
#[export] Instance Experiment_eq_dec : EqDecision Experiment.
Proof. solve_decision. Defined.

(** State of the monitor between two events.  A [context.CancelFunc]
    is represented by the number of the context it cancels. *)
Record MonitorState := mkState {
  trackedExperiments : gmap Z nat;  (* [map[uint64]context.CancelFunc] *)
  routines : list Routine;          (* every goroutine started so far *)
  cancelled : gset nat;             (* contexts whose [cancel] was called *)
  exited : gset nat;                (* contexts whose goroutine returned *)
  activeMonitoringRoutines : trackingGauge;
  nextCtx : nat                     (* the next fresh context *)
}.

Definition init : MonitorState :=
  mkState ∅ [] ∅ ∅ TrackingGauge.new 0%nat.

(** The loop variable [e] of [for _, e := range es] is one variable
    for the whole loop (the Go semantics before 1.22, which this code
    was written for), and the closure of the goroutine refers to it.
    A goroutine started at iteration [i] that first runs [d]
    iterations later reads the element the loop is at by then; once
    the loop is over the variable keeps the last element. *)
Definition loopVariable (es : list Experiment) (e : Experiment)
    (i d : nat) : Experiment :=
  default e (es !! ((i + d) `min` (length es - 1))%nat).

(** [for _, e := range es { ... }] from iteration [i] on; [rest] is
    what is left of [es].  [startDelay i] is the scheduler's choice for
    the goroutine started at iteration [i]. *)
Fixpoint rangeExperiments (es : list Experiment) (startDelay : nat -> nat)
    (i : nat) (rest : list Experiment) (st : MonitorState)
    (activeExperiments : gset Z) : MonitorState * gset Z :=
  match rest with
  | [] => (st, activeExperiments)
  | e :: rest' =>
    let active' := {[Id e]} ∪ activeExperiments in
    match trackedExperiments st !! Id e with
    | Some _ => rangeExperiments es startDelay (S i) rest' st active'
    | None =>
      let ctx := nextCtx st in
      let st' :=
        mkState (<[Id e := ctx]> (trackedExperiments st))
                (routines st ++ [mkRoutine (Id e) ctx
                                   (loopVariable es e i (startDelay i))])
                (cancelled st) (exited st)
                (inc (activeMonitoringRoutines st))
                (S ctx) in
      rangeExperiments es startDelay (S i) rest' st' active'
    end
  end.

(** [func (m *monitor) monitorNewExperiments(es, trackedExperiments)]. *)
Definition monitorNewExperiments (startDelay : nat -> nat)
    (es : list Experiment) (st : MonitorState) : MonitorState * gset Z :=
  rangeExperiments es startDelay 0 es st ∅.

(** [for e, cancel := range trackedExperiments {
       if _, ok := activeExperiments[e]; !ok { cancel(); delete(...) } }] *)
Definition cancelInactive (activeExperiments : gset Z) (st : MonitorState)
    : MonitorState :=
  let stale := filter (fun kv => kv.1 ∉ activeExperiments) (trackedExperiments st) in
  mkState (filter (fun kv => kv.1 ∈ activeExperiments) (trackedExperiments st))
          (routines st)
          (cancelled st ∪ list_to_set ((map_to_list stale).*2))
          (exited st)
          (activeMonitoringRoutines st)
          (nextCtx st).

(** Body of [case <-ticker.C:] of the outer loop; [res] is what
    [m.store.GetExperiments] returned. *)
Definition outerTick (startDelay : nat -> nat)
    (res : list Experiment + string) (st : MonitorState) : MonitorState :=
  match res with
  | inr _ => st                       (* log the error, [continue] *)
  | inl es =>
    let '(st1, activeExperiments) := monitorNewExperiments startDelay es st in
    cancelInactive activeExperiments st1
  end.

(** What the [select] of the outer loop receives: the cancellation of
    its context, or a tick (with the scheduler's choice for the
    goroutines the tick starts). *)
Inductive OuterSelect :=
  | OuterCtxDone
  | OuterTickerC (startDelay : nat -> nat).

Section RunLoop.

Context {S : Type} `{Storer S}.

(** The goroutine of [func (m *monitor) Run(ctx)]: the
    [for { select { ... } }] over [ctx.Done()] and [ticker.C], on the
    events it receives.  Each tick asks the store for the running
    experiments of the enabled config types. *)
Fixpoint Run (enabledConfigTypes : list string) (events : list OuterSelect)
    (s : S) (st : MonitorState) : S * MonitorState :=
  match events with
  | [] => (s, st)
  | OuterCtxDone :: _ => (s, st)
  | OuterTickerC startDelay :: rest =>
    let '(s', res) := GetExperiments s enabledConfigTypes RUNNING in
    Run enabledConfigTypes rest s' (outerTick startDelay res st)
  end.

End RunLoop.

(** A goroutine whose context was cancelled takes the [ctx.Done()]
    branch: it returns and its deferred [dec] runs. *)
Definition routineReturns (ctx : nat) (st : MonitorState) : MonitorState :=
  mkState (trackedExperiments st) (routines st) (cancelled st)
          ({[ctx]} ∪ exited st)
          (dec (activeMonitoringRoutines st))
          (nextCtx st).

(** One step of the monitor: an outer tick, or the return of a
    cancelled goroutine.  The scheduler picks which. *)
Inductive step : MonitorState -> MonitorState -> Prop :=
  | step_tick startDelay res st :
      step st (outerTick startDelay res st)
  | step_return r st :
      r ∈ routines st ->
      r_ctx r ∈ cancelled st ->
      r_ctx r ∉ exited st ->
      step st (routineReturns (r_ctx r) st).

Definition reachable (st : MonitorState) : Prop := rtc step init st.

(** Goroutines started for [id] that have not returned. *)
Definition liveFor (id : Z) (st : MonitorState) : list Routine :=
  filter (fun r => r_key r = id ∧ r_ctx r ∉ exited st) (routines st).

(** Goroutines started for [id] whose context was not cancelled. *)
Definition uncancelledFor (id : Z) (st : MonitorState) : list Routine :=
  filter (fun r => r_key r = id ∧ r_ctx r ∉ cancelled st) (routines st).

(** What the outer loop maintains: contexts are fresh and pairwise
    distinct, and a goroutine whose context was not cancelled is the
    one its key is tracked with. *)
Record tracking_invariant (st : MonitorState) : Prop := mkInvariant {
  inv_fresh : forall r, r ∈ routines st -> (r_ctx r < nextCtx st)%nat;
  inv_nodup : NoDup (r_ctx <$> routines st);
  inv_tracked : forall r, r ∈ routines st -> r_ctx r ∉ cancelled st ->
                  trackedExperiments st !! r_key r = Some (r_ctx r)
}.

(** The goroutines a tick starts. *)
Definition startedBy (before after : MonitorState) : list Routine :=
  drop (length (routines before)) (routines after).

End Outer.

(* ===================================================================== *)
(** ** The runtime discovery server (package [rtds]) *)
(* ===================================================================== *)

Module Rtds.

(** [durationpb.Duration]. *)
Record Duration := mkDuration { dSeconds : Z; dNanos : Z }.

(** [Duration.AsDuration()], in nanoseconds. *)
Definition AsDuration (d : Duration) : Z := dSeconds d * 1000000000 + dNanos d.

(** [ptypes.DurationProto(time.Second)]. *)
Definition DurationProto_Second : Duration := mkDuration 1 0.

(** [rtdsconfigv1.Config], with the fields [newTestServer] sets. *)
Record Config := mkConfig {
  RtdsLayerName : string;
  CacheRefreshInterval : option Duration;
  IngressFaultRuntimePrefix : string;
  EgressFaultRuntimePrefix : string;
  ResourceTtl : option Duration;
  HeartbeatInterval : option Duration
}.

(** The configuration [newTestServer(t, ttl)] builds before it calls
    [New]. *)
Definition newTestServer_config (ttl : bool) : Config :=
  let config :=
    mkConfig "tests" (Some DurationProto_Second) "ingress" "egress" None None in
  if ttl then
    mkConfig (RtdsLayerName config) (CacheRefreshInterval config)
             (IngressFaultRuntimePrefix config) (EgressFaultRuntimePrefix config)
             (Some (mkDuration 1 0)) (Some (mkDuration 1 0))
  else config.

Section Constructor.

(** The constructor [New] of the module is not part of the sources
    at hand; [newTestServer] is a caller of it.  [M] is what it
    builds. *)
Context {M : Type} (New : Config -> M + string).

(** [m, err := New(any, ...); assert.NoError(t, err)] in
    [newTestServer(t, ttl)]. *)
Definition newTestServer_NoError (ttl : bool) : Prop :=
  exists m, New (newTestServer_config ttl) = inl m.

(** Construction fails whenever [resource_ttl] is set and
    [heartbeat_interval] is not strictly below it. *)
Definition rejects_heartbeat_not_below_ttl : Prop :=
  forall c t h,
    ResourceTtl c = Some t -> HeartbeatInterval c = Some h ->
    ~ (AsDuration h < AsDuration t) ->
    exists err, New c = inr err.

End Constructor.

(** Modelled from the spec: the start-up validation of the constructor
    [New] of the [rtds] module, which is missing from the sources.
    The spec lists [heartbeat_interval] as "required iff
    [resource_ttl] set; must be < ttl" and has an invalid
    configuration fail fast at startup.  The built server is
    represented by its configuration. *)
Definition New_spec (c : Config) : Config + string :=
  match ResourceTtl c with
  | None => inl c
  | Some t =>
    match HeartbeatInterval c with
    | None => inr "heartbeat_interval is required when resource_ttl is set"
    | Some h =>
      if AsDuration h <? AsDuration t then inl c
      else inr "heartbeat_interval must be less than resource_ttl"
    end
  end.

(** *** Wire messages *)

(** [rpc_status.Status]. *)
Record RpcStatus := mkRpcStatus { Code : Z; Message : string }.

(** [DiscoveryRequest]:
    [{ version_info, response_nonce, resource_names[], node{cluster},
       error_detail? }]. *)
Record DiscoveryRequest := mkRequest {
  VersionInfo : string;
  ResponseNonce : string;
  ResourceNames : list string;
  NodeCluster : string;
  ErrorDetail : option RpcStatus
}.

(** [&DiscoveryRequest{}]. *)
Definition emptyRequest : DiscoveryRequest := mkRequest "" "" [] "" None.

(** The resource wrapper used when TTL is active:
    [{ name, ttl, resource? }]. *)
Record Resource := mkResource {
  Name : string;
  Ttl : option Duration;
  ResourceBody : option Any
}.

(** An element of [resources[]]: the bare resource, or the wrapper. *)
Inductive WireResource :=
  | Bare (body : Any)
  | Wrapped (r : Resource).

(** [DiscoveryResponse]: [{ version_info, nonce, resources[] }]. *)
Record DiscoveryResponse := mkResponse {
  rVersionInfo : string;
  Nonce : string;
  Resources : list WireResource
}.

(** The two on-wire versions. *)
Inductive ProtoVersion := V2 | V3.

#[export] Instance ProtoVersion_eq_dec : EqDecision ProtoVersion.
Proof. solve_decision. Defined.

(** Type URL of a runtime resource in each version. *)
Definition runtimeTypeUrl (v : ProtoVersion) : string :=
  match v with
  | V2 => "type.googleapis.com/envoy.service.discovery.v2.Runtime"
  | V3 => "type.googleapis.com/envoy.service.runtime.v3.Runtime"
  end.

(** A snapshot of one cluster: a version and the named resources. *)
Record Snapshot := mkSnapshot {
  version : string;
  entries : list (string * string)    (* resource name, payload *)
}.

Inductive Phase := Idle | AwaitingAck.

(** Modelled from the spec: the per-stream state of the stream server,
    which is missing from the sources (section 3, "Stream state").
    [last_sent] is the version and nonce of the last response, absent
    on a fresh stream. *)
Record StreamState := mkStream {
  phase : Phase;
  last_sent : option (string * string);
  last_acked_version : option string;
  subscription : option (string * list string);  (* cluster, names *)
  heartbeat_deadline : option Z;
  nonce_deadline : option Z;
  nonce_counter : nat
}.

(** The counters of the metrics sink, per protocol version. *)
Record Metrics := mkMetrics {
  totalResourcesServed : ProtoVersion -> Z;
  totalErrorsReceived : ProtoVersion -> Z
}.

Definition bump (f : ProtoVersion -> Z) (v : ProtoVersion) (n : Z)
    : ProtoVersion -> Z :=
  fun v' => if decide (v' = v) then f v' + n else f v'.

(** One stream of protocol version [proto] together with the cache it
    reads and the metrics it writes. *)
Record Server := mkServer {
  config : Config;
  defaultCluster : string;
  nonceExpiry : Z;
  proto : ProtoVersion;
  cache : gmap string Snapshot;
  stream : StreamState;
  metrics : Metrics
}.

(** What a response is: new content, or a heartbeat. *)
Inductive Kind := Content | Heartbeat.

Definition Emitted : Type := Kind * DiscoveryResponse.

(** *** Stream server *)

Definition freshStream : StreamState :=
  mkStream Idle None None None None None 0%nat.

(** A new server with an empty cache and one fresh stream. *)
Definition newServer (c : Config) (v : ProtoVersion) : Server :=
  mkServer c "default" 60000000000 v ∅ freshStream
           (mkMetrics (fun _ => 0) (fun _ => 0)).

Definition withStream (sv : Server) (st : StreamState) : Server :=
  mkServer (config sv) (defaultCluster sv) (nonceExpiry sv) (proto sv)
           (cache sv) st (metrics sv).

Definition withMetrics (sv : Server) (m : Metrics) : Server :=
  mkServer (config sv) (defaultCluster sv) (nonceExpiry sv) (proto sv)
           (cache sv) (stream sv) m.

Definition withCache (sv : Server) (c : gmap string Snapshot) : Server :=
  mkServer (config sv) (defaultCluster sv) (nonceExpiry sv) (proto sv)
           c (stream sv) (metrics sv).

(** The entries of a snapshot a subscription asks for: an empty list of
    names means all of them. *)
Definition selected (names : list string) (sn : Snapshot) : list (string * string) :=
  match names with
  | [] => entries sn
  | _ => filter (fun kv => kv.1 ∈ names) (entries sn)
  end.

(** Modelled from the spec: how a resource is put into a response,
    missing from the sources.  "When TTL is active, each resource is
    wrapped as [{ name, ttl, resource? }]"; otherwise it is sent bare. *)
Definition contentResource (c : Config) (v : ProtoVersion)
    (kv : string * string) : WireResource :=
  let body := mkAny (runtimeTypeUrl v) kv.2 in
  match ResourceTtl c with
  | Some t => Wrapped (mkResource kv.1 (Some t) (Some body))
  | None => Bare body
  end.

(** Modelled from the spec: a heartbeat resource, missing from the
    sources: "heartbeat responses omit [resource]" (TTL only). *)
Definition heartbeatResource (t : Duration) (kv : string * string) : WireResource :=
  Wrapped (mkResource kv.1 (Some t) None).

(** The snapshot the stream is subscribed to, with the names it asked
    for. *)
Definition currentSnapshot (sv : Server) : option (Snapshot * list string) :=
  match subscription (stream sv) with
  | None => None
  | Some (cluster, names) =>
    match cache sv !! cluster with
    | None => None
    | Some sn => Some (sn, names)
    end
  end.

(** The deadline of the next heartbeat after a response sent at [now]:
    only in TTL mode. *)
Definition nextHeartbeat (c : Config) (now : Z) : option Z :=
  match ResourceTtl c, HeartbeatInterval c with
  | Some _, Some h => Some (now + AsDuration h)
  | _, _ => None
  end.

(** Modelled from the spec: the push rule of the stream server, missing
    from the sources.  "When [Idle] and the current snapshot's version
    differs from [last_sent_version] (or the client has no prior
    version), emit a response: fresh monotonic nonce, snapshot version,
    resources (wrapped with TTL if configured) ...  Transition to
    [AwaitingAck].  Start a nonce-expiry timer."  The counter "total
    resources served" is "incremented per emitted response by resource
    count". *)
Definition push (now : Z) (sv : Server) : Server * list Emitted :=
  let st := stream sv in
  match phase st, currentSnapshot sv with
  | Idle, Some (sn, names) =>
    if decide (fst <$> last_sent st = Some (version sn)) then (sv, [])
    else
      let nonce := pretty (S (nonce_counter st)) in
      let rs := contentResource (config sv) (proto sv) <$> selected names sn in
      let st' := mkStream AwaitingAck (Some (version sn, nonce))
                          (last_acked_version st) (subscription st)
                          (nextHeartbeat (config sv) now)
                          (Some (now + nonceExpiry sv))
                          (S (nonce_counter st)) in
      let m := metrics sv in
      let m' := mkMetrics (bump (totalResourcesServed m) (proto sv)
                                (Z.of_nat (length rs)))
                          (totalErrorsReceived m) in
      (withMetrics (withStream sv st') m',
       [(Content, mkResponse (version sn) nonce rs)])
  | _, _ => (sv, [])
  end.

(** Modelled from the spec: the heartbeat rule, missing from the
    sources.  "If [heartbeat_interval] elapses since the last response
    for this stream and state is [Idle], emit a TTL-only refresh of the
    current version."  A heartbeat "does not advance version and does
    not require ACK-before-next": the stream stays [Idle] and
    [last_sent] is kept. *)
Definition heartbeat (now : Z) (sv : Server) : Server * list Emitted :=
  let st := stream sv in
  match ResourceTtl (config sv), phase st, heartbeat_deadline st, currentSnapshot sv with
  | Some t, Idle, Some due, Some (sn, names) =>
    if due <=? now then
      let nonce := pretty (S (nonce_counter st)) in
      let rs := heartbeatResource t <$> selected names sn in
      let st' := mkStream Idle (last_sent st) (last_acked_version st)
                          (subscription st)
                          (nextHeartbeat (config sv) now)
                          (nonce_deadline st)
                          (S (nonce_counter st)) in
      let m := metrics sv in
      let m' := mkMetrics (bump (totalResourcesServed m) (proto sv)
                                (Z.of_nat (length rs)))
                          (totalErrorsReceived m) in
      (withMetrics (withStream sv st') m',
       [(Heartbeat, mkResponse (version sn) nonce rs)])
    else (sv, [])
  | _, _, _, _ => (sv, [])
  end.

Definition setPhase (st : StreamState) (p : Phase) : StreamState :=
  mkStream p (last_sent st) (last_acked_version st) (subscription st)
           (heartbeat_deadline st) (nonce_deadline st) (nonce_counter st).

(** Modelled from the spec: the handling of one request received from
    the client (section 4.4, "Per request received from client"),
    missing from the sources.
    1. a request with an [error_detail] is a NACK: count it, leave
       [last_acked_version] alone, return to [Idle];
    2. a request echoing the last nonce and version is an ACK: record
       [last_acked_version], return to [Idle];
    3. a request with empty nonce and version is an initial request:
       derive the cluster (falling back to the default), subscribe;
    4. anything else is stale and dropped. *)
Definition handleRequest (req : DiscoveryRequest) (sv : Server) : Server :=
  let st := stream sv in
  match ErrorDetail req with
  | Some _ =>
    let m := metrics sv in
    withMetrics (withStream sv (setPhase st Idle))
                (mkMetrics (totalResourcesServed m)
                           (bump (totalErrorsReceived m) (proto sv) 1))
  | None =>
    if decide (last_sent st = Some (VersionInfo req, ResponseNonce req)) then
      withStream sv
        (mkStream Idle (last_sent st) (Some (VersionInfo req)) (subscription st)
                  (heartbeat_deadline st) (nonce_deadline st) (nonce_counter st))
    else if decide (ResponseNonce req = "" ∧ VersionInfo req = "") then
      let cluster := if decide (NodeCluster req = "") then defaultCluster sv
                     else NodeCluster req in
      withStream sv
        (mkStream (phase st) (last_sent st) (last_acked_version st)
                  (Some (cluster, ResourceNames req))
                  (heartbeat_deadline st) (nonce_deadline st) (nonce_counter st))
    else sv
  end.

(** The nonce-expiry timer: "if it fires without ACK/NACK, transition
    back to [Idle]". *)
Definition expireNonce (now : Z) (sv : Server) : Server :=
  let st := stream sv in
  match phase st, nonce_deadline st with
  | AwaitingAck, Some due =>
    if due <=? now then withStream sv (setPhase st Idle) else sv
  | _, _ => sv
  end.

(** What can happen to a stream, with the time it happens at. *)
Inductive Event :=
  | Recv (now : Z) (req : DiscoveryRequest)
  | SetSnapshot (now : Z) (cluster : string) (sn : Snapshot)
  | Timer (now : Z).

(** After any event the stream sends what the push rule allows; when
    nothing is pushed, a heartbeat that is due is sent. *)
Definition settle (now : Z) (sv : Server) : Server * list Emitted :=
  match push now sv with
  | (sv', []) => heartbeat now sv'
  | r => r
  end.

Definition onEvent (ev : Event) (sv : Server) : Server * list Emitted :=
  match ev with
  | Recv now req => settle now (handleRequest req sv)
  | SetSnapshot now cluster sn =>
    settle now (withCache sv (<[cluster := sn]> (cache sv)))
  | Timer now => settle now (expireNonce now sv)
  end.

(** A run of the stream: the final state and everything it sent. *)
Fixpoint run (evs : list Event) (sv : Server) : Server * list Emitted :=
  match evs with
  | [] => (sv, [])
  | ev :: evs' =>
    let '(sv1, out1) := onEvent ev sv in
    let '(sv2, out2) := run evs' sv1 in
    (sv2, out1 ++ out2)
  end.



(** Every resource of a response is a wrapper with TTL [t]. *)
Definition allTtl (t : Duration) (r : DiscoveryResponse) : Prop :=
  Forall (fun w => exists res, w = Wrapped res ∧ Ttl res = Some t) (Resources r).

(** Every resource of a response has, or lacks, a body. *)
Definition bodies (present : bool) (r : DiscoveryResponse) : Prop :=
  Forall (fun w => exists res, w = Wrapped res ∧
                     (if present then ResourceBody res <> None
                      else ResourceBody res = None)) (Resources r).

(** What TTL mode asks of an emitted response: every resource carries
    the TTL; content comes with bodies, heartbeats without. *)
Definition ttlShaped (t : Duration) (o : Emitted) : Prop :=
  allTtl t o.2 /\
  match o.1 with
  | Content => bodies true o.2
  | Heartbeat => bodies false o.2
  end.

End Rtds.

(* ===================================================================== *)
(** ** The properties under study, as predicates on the code *)
(* ===================================================================== *)

(** Some criterion of [cs] panics on [e]. *)
Definition somePanic (cs : list TerminationCriteria) (e : Experiment) : Prop :=
  Exists (fun c => ShouldTerminate c (ptypes_Timestamp (StartTime e)) e = Panics) cs.

(** "An error returned by [ShouldTerminate] means: do not terminate on
    this tick": a tick in which a criterion returns an error makes no
    [TerminateExperiment] call. *)
Definition error_means_do_not_terminate : Prop :=
  forall (S : Type) (St : Storer S) (c : TerminationCriteria) (e : Experiment)
         (err : string) (w : World S) (t' : bool) (w' : World S),
    ShouldTerminate c (ptypes_Timestamp (StartTime e)) e = Returns (Some err) ->
    tick [c] e false w = TickDone t' w' ->
    terminateCalls (calls w') = terminateCalls (calls w).

(** "A panic inside a criterion is caught": the tick completes and the
    inner loop goes on to its next [select]. *)
Definition panic_is_caught : Prop :=
  forall (S : Type) (St : Storer S) (cs : list TerminationCriteria)
         (e : Experiment) (w : World S),
    somePanic cs e ->
    exists t' w', tick cs e false w = TickDone t' w'.

(** "At most one live inner loop per experiment id, at all times". *)
Definition at_most_one_live_routine : Prop :=
  forall (st : Outer.MonitorState) (id : Z),
    Outer.reachable st -> (length (Outer.liveFor id st) <= 1)%nat.

(* ===================================================================== *)
(** ** Concrete collaborators and inputs *)
(* ===================================================================== *)

Module Fixtures.

(** A store whose [TerminateExperiment] always succeeds. *)
Definition okStore : Storer unit :=
  {| GetExperiments := fun s _ _ => (s, inl []);
     TerminateExperiment := fun s _ _ => (s, None) |}.

(** A store whose state is the number of [TerminateExperiment] calls
    that still fail before one succeeds. *)
Definition flakyStore : Storer nat :=
  {| GetExperiments := fun s _ _ => (s, inl []);
     TerminateExperiment := fun s _ _ =>
       match s with
       | O => (O, None)
       | Datatypes.S n => (n, Some "store unavailable")
       end |}.

Definition world0 {S : Type} (s : S) : World S := mkWorld s 0 [] [].

(** A criterion that always reports "expired". *)
Definition expired : TerminationCriteria :=
  mkCriteria (fun _ _ => Returns (Some "expired")).

(** A criterion that always reports "too many errors". *)
Definition tooManyErrors : TerminationCriteria :=
  mkCriteria (fun _ _ => Returns (Some "too many errors")).

(** A criterion that fails to evaluate and returns an error value. *)
Definition failing : TerminationCriteria :=
  mkCriteria (fun _ _ => Returns (Some "metrics backend unreachable")).

(** A criterion that never fires. *)
Definition quiet : TerminationCriteria :=
  mkCriteria (fun _ _ => Returns None).

(** A criterion that panics. *)
Definition panicking : TerminationCriteria :=
  mkCriteria (fun _ _ => Panics).

Definition experiment (id : Z) (start : Z) : Experiment :=
  mkExperiment id (Some (mkAny "type.googleapis.com/clutch.chaos.serverexperimentation.v1.TestConfig" ""))
               (Some (mkTimestamp start 0)) None.

Definition e1 : Experiment := experiment 1 100.
Definition e2 : Experiment := experiment 2 200.

(** The scheduler lets the goroutine started at iteration 0 run only
    after the loop has moved on by one iteration. *)
Definition lateStart (i : nat) : nat :=
  match i with O => 1%nat | _ => 0%nat end.

(** The scheduler runs every goroutine as soon as it is started. *)
Definition promptStart (i : nat) : nat := 0%nat.

(** Three outer ticks: the store returns experiment 1, then nothing,
    then experiment 1 again; no goroutine gets to run in between. *)
Definition flapping : Outer.MonitorState :=
  Outer.outerTick promptStart (inl [e1])
    (Outer.outerTick promptStart (inl [])
      (Outer.outerTick promptStart (inl [e1]) Outer.init)).

(** One outer tick on which the store returns experiments 1 and 2. *)
Definition twoStarted (startDelay : nat -> nat) : Outer.MonitorState :=
  Outer.outerTick startDelay (inl [e1; e2]) Outer.init.

(** The snapshot of the default cluster while the store is empty: the
    runtime layer, with no keys. *)
Definition emptyLayer : Rtds.Snapshot := Rtds.mkSnapshot "v1" [("tests", "")].

(** The snapshot once one experiment runs. *)
Definition oneFault : Rtds.Snapshot :=
  Rtds.mkSnapshot "v2" [("tests", "ingress.fault.enabled=1")].

(** [&DiscoveryRequest{ErrorDetail: &rpc_status.Status{}}]. *)
Definition nackRequest : Rtds.DiscoveryRequest :=
  Rtds.mkRequest "" "" [] "" (Some (Rtds.mkRpcStatus 0 "")).

(** [&DiscoveryRequest{VersionInfo: r.VersionInfo, ResponseNonce: r.Nonce}]. *)
Definition ackRequest (r : Rtds.DiscoveryResponse) : Rtds.DiscoveryRequest :=
  Rtds.mkRequest (Rtds.rVersionInfo r) (Rtds.Nonce r) [] "" None.

(** The exchange of [TestServerStats] on one stream: the cache holds a
    snapshot, the client sends an empty request and then a request with
    an error detail. *)
Definition statsEvents : list Rtds.Event :=
  [Rtds.SetSnapshot 0 "default" emptyLayer;
   Rtds.Recv 1000 Rtds.emptyRequest;
   Rtds.Recv 2000 nackRequest].


(** The first response of [TestResourceTTL]. *)
Definition ttlFirstResponse : Rtds.DiscoveryResponse :=
  Rtds.mkResponse "v2" "1"
    [Rtds.Wrapped (Rtds.mkResource "tests" (Some (Rtds.mkDuration 1 0))
       (Some (mkAny (Rtds.runtimeTypeUrl Rtds.V3) "ingress.fault.enabled=1")))].

(** The exchange of [TestResourceTTL]: the client sends an empty
    request, an experiment is created and reaches the cache, the client
    acknowledges the response, and a second passes. *)
Definition ttlEvents : list Rtds.Event :=
  [Rtds.Recv 0 Rtds.emptyRequest;
   Rtds.SetSnapshot 1000 "default" oneFault;
   Rtds.Recv 2000 (ackRequest ttlFirstResponse);
   Rtds.Timer 1000001000].

Definition ttlServer : Rtds.Server :=
  Rtds.newServer (Rtds.newTestServer_config true) Rtds.V3.

End Fixtures.

(* ===================================================================== *)
(** ** Observations on runs of the inner loop *)
(* ===================================================================== *)

(** The world a tick leaves behind, however it ended. *)
Definition worldOfTick {S : Type} (r : TickResult S) : World S :=
  match r with
  | TickDone _ w => w
  | TickPanic w => w
  end.

(** The world a run of the inner loop leaves behind, however far it got. *)
Definition worldOfLoop {S : Type} (r : LoopResult S) : World S :=
  match r with
  | Blocked _ w => w
  | Returned w => w
  | Panicked w => w
  end.

(** The number of [TerminateExperiment] calls that returned no error. *)
Definition successes (cl : list Call) : nat :=
  length (filter (fun c => c.2 = None) (terminateCalls cl)).

(** What a stretch of execution that made the calls [new] did to the
    world: the calls are appended, the counter grew by the number of
    successful [TerminateExperiment] calls, one line was logged per
    [TerminateExperiment] call, and every such call names experiment
    [e] with a reason some criterion of [cs] returned. *)
Definition accounted {S : Type} (cs : list TerminationCriteria)
    (e : Experiment) (w w' : World S) (new : list Call) : Prop :=
  calls w' = calls w ++ new /\
  terminationCount w' = terminationCount w + Z.of_nat (successes new) /\
  length (logged w') = (length (logged w) + length (terminateCalls new))%nat /\
  Forall (fun c => c.1.1 = Id e /\ c.1.2 ∈ firing cs e) (terminateCalls new).

(** The [ShouldTerminate] calls among [cl] were all made with the start
    time and the record of experiment [e]. *)
Definition evaluatedAgainst (e : Experiment) (cl : list Call) : Prop :=
  Forall (fun c => match c with
                   | CallShouldTerminate _ started e' =>
                       started = ptypes_Timestamp (StartTime e) /\ e' = e
                   | CallTerminateExperiment _ _ _ => True
                   end) cl.

(** Every criterion of [cs] returns nil for [e]. *)
Definition allQuiet (cs : list TerminationCriteria) (e : Experiment) : Prop :=
  Forall (fun c => ShouldTerminate c (ptypes_Timestamp (StartTime e)) e
                   = Returns None) cs.

(* ===================================================================== *)
(** ** Observations on the outer loop *)
(* ===================================================================== *)

Module OuterObs.

Import Outer.

(** The ids of the experiments the store returned. *)
Definition ids (es : list Experiment) : gset Z := list_to_set (Id <$> es).

(** The goroutines that have not returned. *)
Definition live (st : MonitorState) : list Routine :=
  filter (fun r => r_ctx r ∉ exited st) (routines st).

(** A goroutine started while the loop went over [es]: it was started at
    some position [j] for the experiment there, and it monitors what the
    loop variable held when it ran. *)
Definition startedAt (es : list Experiment) (startDelay : nat -> nat)
    (r : Routine) : Prop :=
  exists j e, es !! j = Some e /\ r_key r = Id e /\
              r_exp r = loopVariable es e j (startDelay j).

(** More of what the outer loop maintains: cancelled and returned
    contexts are old ones, a tracked id is tracked with the context of
    one of its goroutines and that context is not cancelled, and the
    counter of the gauge (the [value] that [atomic.AddUint32] updates)
    holds the number of goroutines that have not returned.  A goroutine
    counts as returned from the moment its deferred [dec] has added to
    the counter. *)
Record monitor_invariant (st : MonitorState) : Prop := mkMonitorInvariant {
  mi_tracking : tracking_invariant st;
  mi_cancelled_old : forall c, c ∈ cancelled st -> (c < nextCtx st)%nat;
  mi_exited_old : forall c, c ∈ exited st -> (c < nextCtx st)%nat;
  mi_tracked : forall id c, trackedExperiments st !! id = Some c ->
                 (c ∉ cancelled st) /\
                 (exists r, r ∈ routines st /\ r_key r = id /\ r_ctx r = c);
  mi_gauge : TrackingGauge.value (activeMonitoringRoutines st)
             = TrackingGauge.uint32 (Z.of_nat (length (live st)))
}.

End OuterObs.

(** A store that is down: every call fails. *)
Definition downStore : Storer unit :=
  {| GetExperiments := fun s _ _ => (s, inr "store unavailable");
     TerminateExperiment := fun s _ _ => (s, Some "store unavailable") |}.

(* ===================================================================== *)
(** ** The test helper [awaitCounterEquals] *)
(* ===================================================================== *)

Module Await.

(** What the [select] of the helper receives. *)
Inductive AwaitSelect := TimeoutC | After100ms.

(** How a call of the helper ends on a finite list of polls. *)
Inductive AwaitResult :=
  | AwaitReturned                     (* the values were equal: [return] *)
  | AwaitTimedOut (lastValue : Z)     (* [t.Errorf(...)], then [return] *)
  | AwaitPolling.                     (* still in the loop *)

(** [c, ok := scope.Snapshot().Counters()[counter]; if ok { v = c.Value() }]
    with [v] initialised to 0. *)
Definition counterValue (counters : gmap string Z) (counter : string) : Z :=
  match counters !! counter with
  | Some c => c
  | None => 0
  end.

(** [func awaitCounterEquals(t, scope, counter, value)]: each iteration
    reads the counters, returns when the counter equals [value], and
    otherwise waits for the one-second timer or for 100ms.  A poll is
    the snapshot an iteration reads and what its [select] receives. *)
Fixpoint awaitCounterEquals (polls : list (gmap string Z * AwaitSelect))
    (counter : string) (value : Z) : AwaitResult :=
  match polls with
  | [] => AwaitPolling
  | (counters, sel) :: rest =>
    let v := counterValue counters counter in
    if decide (value = v) then AwaitReturned
    else match sel with
         | TimeoutC => AwaitTimedOut v
         | After100ms => awaitCounterEquals rest counter value
         end
  end.

End Await.

(* ===================================================================== *)
(** ** A NACK and the responses of its stream *)
(* ===================================================================== *)


(** The client receives its first response, and the cache is given a
    new snapshot before the client has answered. *)
Definition movedOnEvents : list Rtds.Event :=
  [Rtds.SetSnapshot 0 "default" Fixtures.emptyLayer;
   Rtds.Recv 1000 Rtds.emptyRequest;
   Rtds.SetSnapshot 1500 "default" Fixtures.oneFault].

(* ===================================================================== *)
(** ** trackingGauge: unsigned 32-bit wrap-around *)
(* ===================================================================== *)

Module GaugeFacts.

Import TrackingGauge.

Lemma uint32_not_0 : uint32_not 0 = 4294967295.
Proof. reflexivity. Qed.

Lemma inc_wf (t : trackingGauge) : wf (inc t).
Proof. unfold wf, inc, AddUint32, uint32; simpl. apply Z.mod_pos_bound. reflexivity. Qed.

Lemma dec_wf (t : trackingGauge) : wf (dec t).
Proof. unfold wf, dec, AddUint32, uint32; simpl. apply Z.mod_pos_bound. reflexivity. Qed.

Lemma dec_inc_value (t : trackingGauge) : wf t -> value (dec (inc t)) = value t.
Proof.
  unfold wf, dec, inc, AddUint32, uint32. simpl. rewrite uint32_not_0.
  unfold uint32_modulus. intros Hv.
  rewrite Z.add_mod_idemp_l by lia.
  replace (value t + 1 + 4294967295) with (value t + 1 * 2 ^ 32) by lia.
  rewrite Z.mod_add by lia. apply Z.mod_small. lia.
Qed.

(** C10: the gauge is kept with unsigned 32-bit wrapping arithmetic.
    [dec] adds 2^32-1 modulo 2^32 and reports the result to the gauge; a
    [dec] right after an [inc] restores the value; a [dec] at value 0
    makes the gauge report 4294967295. *)
Theorem trackingGauge_wraps (t : trackingGauge) :
  wf t ->
  value (dec t) = (value t + (2 ^ 32 - 1)) mod 2 ^ 32 /\
  gauge (dec t) = value (dec t) /\
  value (dec (inc t)) = value t /\
  gauge (dec (inc t)) = value t /\
  (value t = 0 -> gauge (dec t) = 4294967295 /\ value (dec t) = 4294967295).
Proof.
  intros Hwf. repeat split.
  - apply dec_inc_value, Hwf.
  - change (gauge (dec (inc t))) with (value (dec (inc t))).
    apply dec_inc_value, Hwf.
  - unfold dec, AddUint32, uint32; simpl. rewrite H. reflexivity.
  - unfold dec, AddUint32, uint32; simpl. rewrite H. reflexivity.
Qed.

Lemma trackingGauge_wraps_witness :
  wf new /\
  (value (dec new) = (value new + (2 ^ 32 - 1)) mod 2 ^ 32 /\
   gauge (dec new) = value (dec new) /\
   value (dec (inc new)) = value new /\
   gauge (dec (inc new)) = value new /\
   (value new = 0 -> gauge (dec new) = 4294967295 /\ value (dec new) = 4294967295)).
Proof.
  assert (Hwf : wf new) by (unfold wf, new, uint32_modulus; simpl; lia).
  split; [exact Hwf | exact (trackingGauge_wraps new Hwf)].
Defined.

End GaugeFacts.

(* ===================================================================== *)
(** ** The inner loop: criteria, termination, panics *)
(* ===================================================================== *)

Module InnerFacts.

Import Fixtures.

Lemma terminateCalls_app (a b : list Call) :
  terminateCalls (a ++ b) = terminateCalls a ++ terminateCalls b.
Proof. unfold terminateCalls. apply omap_app. Qed.

Lemma requested_app (a b : list Call) :
  requested (a ++ b) = requested a ++ requested b.
Proof. unfold requested. rewrite terminateCalls_app. apply fmap_app. Qed.

Section Generic.

Context {S : Type} `{Storer S}.

(** Without panics the criteria loop runs to its end, and its
    [TerminateExperiment] calls are exactly the errors the criteria
    returned, in order. *)
Lemma rangeCriterias_requests (cs : list TerminationCriteria) :
  forall (i : nat) (e : Experiment) (t : bool) (w : World S),
    noPanic cs e ->
    exists t' w',
      rangeCriterias cs i e t w = TickDone t' w' /\
      requested (calls w') =
        requested (calls w) ++ ((fun msg => (Id e, msg)) <$> firing cs e).
Proof.
  induction cs as [|c cs IH]; intros i e t w Hnp.
  - exists t, w. split; [reflexivity|]. simpl. by rewrite app_nil_r.
  - apply Forall_cons in Hnp as [Hc Hnp].
    simpl. unfold firing in *. simpl.
    destruct (ShouldTerminate c (ptypes_Timestamp (StartTime e)) e)
      as [[msg|]|] eqn:Hst; [| |congruence].
    + destruct (TerminateExperiment (store w) (Id e) msg) as [s' [err|]] eqn:Hte.
      * edestruct (IH (Datatypes.S i) e t) as (t' & w' & Hrun & Hreq); [exact Hnp|].
        exists t', w'. split; [exact Hrun|]. rewrite Hreq. simpl.
        rewrite !requested_app. simpl. by rewrite <- !app_assoc.
      * edestruct (IH (Datatypes.S i) e true) as (t' & w' & Hrun & Hreq); [exact Hnp|].
        exists t', w'. split; [exact Hrun|]. rewrite Hreq. simpl.
        rewrite !requested_app. simpl. by rewrite <- !app_assoc.
    + edestruct (IH (Datatypes.S i) e t) as (t' & w' & Hrun & Hreq); [exact Hnp|].
      exists t', w'. split; [exact Hrun|]. rewrite Hreq. simpl.
      rewrite requested_app. simpl. by rewrite app_nil_r.
Qed.

(** A panicking criterion makes the criteria loop panic, whatever the
    flag and the index; the last call made is the [ShouldTerminate]
    that panicked. *)
Lemma rangeCriterias_panics (cs : list TerminationCriteria) :
  forall (i : nat) (e : Experiment) (t : bool) (w : World S),
    somePanic cs e ->
    exists w' j,
      rangeCriterias cs i e t w = TickPanic w' /\
      last (calls w') =
        Some (CallShouldTerminate j (ptypes_Timestamp (StartTime e)) e).
Proof.
  induction cs as [|c cs IH]; intros i e t w Hp.
  - by apply Exists_nil in Hp.
  - simpl.
    destruct (ShouldTerminate c (ptypes_Timestamp (StartTime e)) e)
      as [[msg|]|] eqn:Hst.
    + apply Exists_cons in Hp as [Hp|Hp]; [congruence|].
      destruct (TerminateExperiment (store w) (Id e) msg) as [s' [err|]];
        by apply IH.
    + apply Exists_cons in Hp as [Hp|Hp]; [congruence|]. by apply IH.
    + eexists _, i. split; [reflexivity|]. simpl. apply last_snoc.
Qed.

(** Once the flag is set, the loop does nothing until its context is
    cancelled: ticks leave the world as it is. *)
Lemma selectLoop_parked (cs : list TerminationCriteria) (e : Experiment)
    (events : list Select) (w : World S) :
  selectLoop cs e events true w =
    if decide (CtxDone ∈ events) then Returned w else Blocked true w.
Proof.
  induction events as [|ev events IH].
  - simpl. destruct (decide (CtxDone ∈ [])) as [Hin|_]; [|reflexivity].
    by apply elem_of_nil in Hin.
  - destruct ev.
    + simpl selectLoop. rewrite IH.
      destruct (decide (CtxDone ∈ events)) as [Hin|Hin];
        destruct (decide (CtxDone ∈ TickerC :: events)) as [Hin'|Hin'];
        try reflexivity.
      * exfalso. apply Hin'. by right.
      * exfalso. apply elem_of_cons in Hin' as [?|?]; [discriminate|done].
    + simpl selectLoop.
      destruct (decide (CtxDone ∈ CtxDone :: events)) as [Hin|Hin]; [reflexivity|].
      exfalso. apply Hin. by left.
Qed.

End Generic.

(** C1 (as stated, refuted): a criterion that returns an error does make
    the monitor call [TerminateExperiment] on that tick: with the single
    criterion [failing] the tick calls
    [TerminateExperiment(1, "metrics backend unreachable")]. *)
Lemma error_return_terminates : ~ error_means_do_not_terminate.
Proof.
  intros Hevery.
  specialize (Hevery unit okStore failing e1 "metrics backend unreachable"
                     (world0 tt)).
  specialize (Hevery true
    (mkWorld tt 1 [LogTerminated 1]
       [CallShouldTerminate 0 100000000000 e1;
        CallTerminateExperiment 1 "metrics backend unreachable" None])
    eq_refl eq_refl).
  discriminate Hevery.
Qed.

(** C1 (amended): [ShouldTerminate] returns a single [error] value, and
    a non-nil one is the termination signal.  On a tick of a loop that
    is not yet marked terminated, and when no criterion panics: if some
    criterion returns a non-nil error, the first [TerminateExperiment]
    call of the tick is [TerminateExperiment(e.Id, err.Error())] for the
    first such criterion; if every criterion returns nil, the tick makes
    no [TerminateExperiment] call. *)
Theorem tick_terminates_on_first_error (S : Type) (St : Storer S)
    (cs : list TerminationCriteria) (e : Experiment) (w : World S) :
  noPanic cs e ->
  exists t' w',
    tick cs e false w = TickDone t' w' /\
    (firing cs e = [] -> requested (calls w') = requested (calls w)) /\
    (forall msg rest, firing cs e = msg :: rest ->
       exists more,
         requested (calls w') = requested (calls w) ++ (Id e, msg) :: more).
Proof.
  intros Hnp. unfold tick.
  destruct (rangeCriterias_requests cs 0 e false w Hnp) as (t' & w' & Hrun & Hreq).
  exists t', w'. split; [exact Hrun|]. split.
  - intros Hnone. rewrite Hreq, Hnone. simpl. by rewrite app_nil_r.
  - intros msg rest Hfirst. rewrite Hreq, Hfirst. simpl. eauto.
Qed.

Lemma tick_terminates_on_first_error_witness :
  noPanic [quiet; failing; expired] e1 /\
  exists t' w',
    tick (H := okStore) [quiet; failing; expired] e1 false (world0 tt)
      = TickDone t' w' /\
    (firing [quiet; failing; expired] e1 = [] ->
       requested (calls w') = requested (calls (world0 tt))) /\
    (forall msg rest, firing [quiet; failing; expired] e1 = msg :: rest ->
       exists more,
         requested (calls w')
           = requested (calls (world0 tt)) ++ (Id e1, msg) :: more).
Proof.
  assert (Hnp : noPanic [quiet; failing; expired] e1)
    by (repeat constructor; discriminate).
  split; [exact Hnp|].
  exact (tick_terminates_on_first_error unit okStore [quiet; failing; expired] e1
           (world0 tt) Hnp).
Defined.

(** C2 (as stated, refuted): a panic of a criterion is not caught: with
    the single criterion [panicking] the tick does not complete. *)
Lemma criterion_panic_not_caught : ~ panic_is_caught.
Proof.
  intros Hevery.
  destruct (Hevery unit okStore [panicking] e1 (world0 tt)) as (t' & w' & Hrun).
  - left. reflexivity.
  - discriminate Hrun.
Qed.

(** Criteria that never panic: the loop is waiting in its [select]
    for as long as its context is not cancelled, and it returns once it
    is. *)
Lemma selectLoop_noPanic (cs : list TerminationCriteria) (e : Experiment)
    (events : list Select) :
  noPanic cs e ->
  forall (S : Type) (St : Storer S) (t : bool) (w : World S),
    exists t' w',
      selectLoop cs e events t w
        = if decide (CtxDone ∈ events) then Returned w' else Blocked t' w'.
Proof.
  intros Hnp S St. induction events as [|ev events IH]; intros t w.
  - exists t, w. simpl.
    destruct (decide (CtxDone ∈ [])) as [Hin|_]; [|reflexivity].
    by apply elem_of_nil in Hin.
  - destruct ev.
    + assert (Htick : exists t1 w1, tick cs e t w = TickDone t1 w1).
      { unfold tick. destruct t; [by eexists _, _|].
        destruct (rangeCriterias_requests cs 0 e false w Hnp)
          as (t1 & w1 & Hrun & _). by exists t1, w1. }
      destruct Htick as (t1 & w1 & Htick).
      destruct (IH t1 w1) as (t' & w' & Hrun).
      exists t', w'. simpl. rewrite Htick, Hrun.
      destruct (decide (CtxDone ∈ events)) as [Hin|Hin];
        destruct (decide (CtxDone ∈ TickerC :: events)) as [Hin'|Hin'];
        try reflexivity.
      * exfalso. apply Hin'. by right.
      * exfalso. apply elem_of_cons in Hin' as [?|?]; [discriminate|done].
    + exists t, w. simpl.
      destruct (decide (CtxDone ∈ CtxDone :: events)) as [Hin|Hin]; [reflexivity|].
      exfalso. apply Hin. by left.
Qed.

(** C2 (amended): nothing in the monitor recovers from a panic.  When a
    criterion panics on a tick of an inner loop that is not parked, the
    tick is abandoned at that [ShouldTerminate] call (no
    [TerminateExperiment] follows it), the panic leaves
    [monitorSingleExperiment], the deferred decrement of the gauge runs,
    and the goroutine ends with the panic uncaught.  When no criterion
    panics, the goroutine never ends by itself: whatever the criteria
    return and the store answers, it is running for as long as
    [ctx.Done()] has not been received, and it returns (with the
    deferred decrement) once it has. *)
Theorem criterion_panic_propagates (S : Type) (St : Storer S)
    (cs : list TerminationCriteria) (e : Experiment)
    (events : list Select) (g : TrackingGauge.trackingGauge) (w : World S) :
  (somePanic cs e ->
   exists w' j,
     monitoringRoutine cs (TickerC :: events) e g w
       = (UncaughtPanic, TrackingGauge.dec g, w') /\
     last (calls w') =
       Some (CallShouldTerminate j (ptypes_Timestamp (StartTime e)) e)) /\
  (noPanic cs e ->
   exists w',
     monitoringRoutine cs events e g w
       = if decide (CtxDone ∈ events)
         then (Finished, TrackingGauge.dec g, w')
         else (Running, g, w')).
Proof.
  split.
  - intros Hp.
    destruct (rangeCriterias_panics cs 0 e false w Hp) as (w' & j & Hrun & Hlast).
    exists w', j. split; [|exact Hlast].
    unfold monitoringRoutine, monitorSingleExperiment. simpl. unfold tick.
    by rewrite Hrun.
  - intros Hnp.
    destruct (selectLoop_noPanic cs e events Hnp S St false w) as (t' & w' & Hrun).
    exists w'. unfold monitoringRoutine, monitorSingleExperiment. rewrite Hrun.
    by destruct (decide (CtxDone ∈ events)).
Qed.

Lemma criterion_panic_propagates_witness :
  (somePanic [quiet; panicking; expired] e1 /\
   exists w' j,
     monitoringRoutine (H := okStore) [quiet; panicking; expired]
       (TickerC :: [TickerC; CtxDone]) e1
       (TrackingGauge.inc TrackingGauge.new) (world0 tt)
       = (UncaughtPanic, TrackingGauge.dec (TrackingGauge.inc TrackingGauge.new), w') /\
     last (calls w') =
       Some (CallShouldTerminate j (ptypes_Timestamp (StartTime e1)) e1)) /\
  (noPanic [quiet; expired] e1 /\
   exists w',
     monitoringRoutine (H := okStore) [quiet; expired]
       [TickerC; TickerC; TickerC] e1
       (TrackingGauge.inc TrackingGauge.new) (world0 tt)
       = (Running, TrackingGauge.inc TrackingGauge.new, w')).
Proof.
  assert (Hp : somePanic [quiet; panicking; expired] e1)
    by (right; left; reflexivity).
  assert (Hnp : noPanic [quiet; expired] e1)
    by (repeat constructor; discriminate).
  split.
  - split; [exact Hp|].
    exact (proj1 (criterion_panic_propagates unit okStore
                    [quiet; panicking; expired] e1 [TickerC; CtxDone]
                    (TrackingGauge.inc TrackingGauge.new) (world0 tt)) Hp).
  - split; [exact Hnp|].
    exact (proj2 (criterion_panic_propagates unit okStore
                    [quiet; expired] e1 [TickerC; TickerC; TickerC]
                    (TrackingGauge.inc TrackingGauge.new) (world0 tt)) Hnp).
Defined.

(** C4 (the code at the failing input): with two criteria that both
    fire on the same tick and a store that accepts every call, the
    first tick calls [TerminateExperiment] twice for experiment 1 and
    increments the "terminations" counter twice. *)
Theorem two_firing_criteria_terminate_twice :
  monitorSingleExperiment (H := okStore) [expired; tooManyErrors] [TickerC] e1
      (world0 tt)
    = Blocked true
        (mkWorld tt 2 [LogTerminated 1; LogTerminated 1]
           [CallShouldTerminate 0 100000000000 e1;
            CallTerminateExperiment 1 "expired" None;
            CallShouldTerminate 1 100000000000 e1;
            CallTerminateExperiment 1 "too many errors" None]).
Proof. reflexivity. Qed.

(** C6 (the code at the failing input): after the successful
    [TerminateExperiment(1, "expired")] the same tick still invokes
    [ShouldTerminate] of the second criterion and then
    [TerminateExperiment] once more. *)
Theorem criteria_run_on_after_successful_termination :
  exists (w' : World unit) (before after : list Call),
    tick (H := okStore) [expired; tooManyErrors] e1 false (world0 tt)
      = TickDone true w' /\
    calls w' = before ++ CallTerminateExperiment 1 "expired" None :: after /\
    shouldTerminateCalls after = [1%nat] /\
    terminateCalls after = [(1, "too many errors", None)].
Proof.
  eexists _, [CallShouldTerminate 0 100000000000 e1], _.
  split; [reflexivity|]. split; [reflexivity|]. split; reflexivity.
Qed.

End InnerFacts.

(* ===================================================================== *)
(** ** The outer loop: which experiment a goroutine monitors, and how
       many goroutines an experiment has *)
(* ===================================================================== *)

Module OuterFacts.

Import Outer Fixtures.

(** A list whose images under [f] are pairwise distinct has at most one
    element among those that [P] selects, when [P] pins the image. *)
Lemma filter_at_most_one {A B : Type} (f : A -> B) (P : A -> Prop)
    `{forall x, Decision (P x)} (c : B) (l : list A) :
  NoDup (f <$> l) ->
  (forall x, x ∈ l -> P x -> f x = c) ->
  (length (filter P l) <= 1)%nat.
Proof.
  induction l as [|x l IH]; intros Hnd Hpin; [simpl; lia|].
  rewrite fmap_cons in Hnd. apply NoDup_cons in Hnd as [Hx Hnd].
  rewrite filter_cons. destruct (decide (P x)) as [HPx|HPx].
  - destruct (filter P l) as [|y ys] eqn:Hf; [simpl; lia|].
    exfalso. apply Hx.
    assert (Hy : y ∈ filter P l) by (rewrite Hf; left).
    apply list_elem_of_filter in Hy as [HPy Hyl].
    apply list_elem_of_fmap. exists y. split; [|exact Hyl].
    rewrite (Hpin x) by (by left || done).
    symmetry. apply Hpin; [by right|done].
  - apply IH; [exact Hnd|]. intros y Hy. apply Hpin. by right.
Qed.

Lemma tracking_invariant_init : tracking_invariant init.
Proof.
  split; simpl.
  - intros r Hr. by apply elem_of_nil in Hr.
  - constructor.
  - intros r Hr. by apply elem_of_nil in Hr.
Qed.

Lemma rangeExperiments_invariant (es : list Experiment) (d : nat -> nat)
    (rest : list Experiment) :
  forall (i : nat) (st : MonitorState) (act : gset Z),
    tracking_invariant st ->
    tracking_invariant (rangeExperiments es d i rest st act).1.
Proof.
  induction rest as [|e rest IH]; intros i st act Hinv; [exact Hinv|].
  simpl. destruct (trackedExperiments st !! Id e) as [c|] eqn:Hlk.
  - by apply IH.
  - apply IH. destruct Hinv as [Hfresh Hnd Htr]. split; simpl.
    + intros r Hr. apply elem_of_app in Hr as [Hr|Hr].
      * specialize (Hfresh r Hr). lia.
      * apply list_elem_of_singleton in Hr. subst r. simpl. lia.
    + rewrite fmap_app. apply NoDup_app. split; [exact Hnd|]. split.
      * intros c Hc Hc'. simpl in Hc'. apply list_elem_of_singleton in Hc'.
        subst c. apply list_elem_of_fmap in Hc as (r & Heq & Hr).
        specialize (Hfresh r Hr). lia.
      * simpl. apply NoDup_singleton.
    + intros r Hr Hnc. apply elem_of_app in Hr as [Hr|Hr].
      * specialize (Htr r Hr Hnc).
        rewrite lookup_insert_ne; [exact Htr|].
        intros Heq. rewrite Heq in Hlk. congruence.
      * apply list_elem_of_singleton in Hr. subst r. simpl.
        apply lookup_insert_eq.
Qed.

Lemma cancelInactive_invariant (act : gset Z) (st : MonitorState) :
  tracking_invariant st -> tracking_invariant (cancelInactive act st).
Proof.
  intros [Hfresh Hnd Htr]. split; simpl; [exact Hfresh|exact Hnd|].
  intros r Hr Hnc.
  apply not_elem_of_union in Hnc as [Hnc Hstale].
  specialize (Htr r Hr Hnc).
  apply map_lookup_filter_Some. split; [exact Htr|]. simpl.
  destruct (decide (r_key r ∈ act)) as [Hin|Hnin]; [exact Hin|].
  exfalso. apply Hstale. apply elem_of_list_to_set.
  apply list_elem_of_fmap. exists (r_key r, r_ctx r). split; [reflexivity|].
  apply elem_of_map_to_list. apply map_lookup_filter_Some. by split.
Qed.

Lemma outerTick_invariant (d : nat -> nat) (res : list Experiment + string)
    (st : MonitorState) :
  tracking_invariant st -> tracking_invariant (outerTick d res st).
Proof.
  intros Hinv. destruct res as [es|err]; [|exact Hinv].
  unfold outerTick, monitorNewExperiments.
  pose proof (rangeExperiments_invariant es d es 0 st ∅ Hinv) as Hinv'.
  destruct (rangeExperiments es d 0 es st ∅) as [st1 act].
  by apply cancelInactive_invariant.
Qed.

Lemma routineReturns_invariant (ctx : nat) (st : MonitorState) :
  tracking_invariant st -> tracking_invariant (routineReturns ctx st).
Proof. intros [Hfresh Hnd Htr]. by split. Qed.

Lemma reachable_invariant (st : MonitorState) :
  reachable st -> tracking_invariant st.
Proof.
  unfold reachable. revert st.
  apply (rtc_ind_r tracking_invariant init).
  - apply tracking_invariant_init.
  - intros st1 st2 _ Hstep IH. destruct Hstep.
    + by apply outerTick_invariant.
    + by apply routineReturns_invariant.
Qed.

(** Whatever the store answers, the states [Run] goes through are
    reachable. *)
Lemma Run_reachable {S : Type} `{Storer S} (types : list string)
    (events : list OuterSelect) :
  forall (s : S) (st : MonitorState),
    reachable st -> reachable (Run types events s st).2.
Proof.
  induction events as [|ev events IH]; intros s st Hr; [exact Hr|].
  destruct ev as [|d]; [exact Hr|]. simpl.
  destruct (GetExperiments s types RUNNING) as [s' res].
  apply IH. eapply rtc_r; [exact Hr|apply step_tick].
Qed.

Lemma flapping_reachable : reachable flapping.
Proof.
  unfold reachable, flapping.
  eapply rtc_r; [|apply step_tick].
  eapply rtc_r; [|apply step_tick].
  eapply rtc_r; [|apply step_tick].
  apply rtc_refl.
Qed.

(** When every goroutine runs before the loop moves on, each one reads
    the experiment of its own iteration. *)
Lemma rangeExperiments_prompt (es : list Experiment) (d : nat -> nat)
    (rest : list Experiment) :
  (forall k, d k = 0%nat) ->
  forall (i : nat) (st : MonitorState) (act : gset Z),
    drop i es = rest ->
    Forall (fun r => r_exp r ∈ es /\ Id (r_exp r) = r_key r) (routines st) ->
    Forall (fun r => r_exp r ∈ es /\ Id (r_exp r) = r_key r)
           (routines (rangeExperiments es d i rest st act).1).
Proof.
  intros Hd. induction rest as [|e rest IH]; intros i st act Hdrop Hall;
    [exact Hall|].
  assert (Hlk : es !! i = Some e).
  { replace i with (i + 0)%nat by lia. rewrite <- lookup_drop, Hdrop. done. }
  assert (Hrest : drop (S i) es = rest).
  { rewrite (drop_S _ _ _ Hlk) in Hdrop. congruence. }
  simpl. destruct (trackedExperiments st !! Id e) as [c|]; [by apply IH|].
  apply IH; [exact Hrest|]. simpl.
  apply Forall_app. split; [exact Hall|].
  apply Forall_singleton. simpl.
  unfold loopVariable. rewrite Hd.
  pose proof (lookup_lt_Some _ _ _ Hlk) as Hlt.
  replace ((i + 0) `min` (length es - 1))%nat with i by lia.
  rewrite Hlk. simpl. split; [|reflexivity].
  by eapply list_elem_of_lookup_2.
Qed.

(** With a prompt scheduler every goroutine a tick starts monitors the
    experiment it is tracked under. *)
Lemma prompt_goroutines_monitor_their_own (es : list Experiment) :
  Forall (fun r => r_exp r ∈ es /\ Id (r_exp r) = r_key r)
         (routines (outerTick promptStart (inl es) init)).
Proof.
  unfold outerTick, monitorNewExperiments.
  pose proof (rangeExperiments_prompt es promptStart es (fun _ => eq_refl)
                0 init ∅ eq_refl (Forall_nil_2 _)) as Hall.
  destruct (rangeExperiments es promptStart 0 es init ∅) as [st1 act].
  exact Hall.
Qed.

(** C5 (the code at the failing input): the store returns experiments 1
    and 2 on one tick and the goroutine started for experiment 1 first
    runs after the loop has moved on.  One goroutine is started per id,
    but both read experiment 2 from the shared loop variable: the
    goroutine tracked under id 1 evaluates the criteria against the
    start time and record of experiment 2, and terminates experiment
    2. *)
Theorem late_goroutine_monitors_other_experiment :
  startedBy init (twoStarted lateStart)
    = [mkRoutine 1 0 e2; mkRoutine 2 1 e2] /\
  trackedExperiments (twoStarted lateStart) !! 1 = Some 0%nat /\
  monitorSingleExperiment (H := okStore) [expired] [TickerC]
      (r_exp (mkRoutine 1 0 e2)) (world0 tt)
    = Blocked true
        (mkWorld tt 1 [LogTerminated 2]
           [CallShouldTerminate 0 200000000000 e2;
            CallTerminateExperiment 2 "expired" None]).
Proof. split; [|split]; vm_compute; reflexivity. Qed.

(** C7 (as stated, refuted): the store returns experiment 1, then
    nothing, then experiment 1 again.  The second tick cancels the first
    goroutine; before that goroutine has taken its [ctx.Done()] branch
    the third tick starts another one: two goroutines for id 1 are
    alive. *)
Lemma two_live_routines_after_flapping : ~ at_most_one_live_routine.
Proof.
  intros Hevery. specialize (Hevery flapping 1 flapping_reachable).
  vm_compute in Hevery. lia.
Qed.

(** C7 (amended): for every experiment id, at every moment of the
    monitor's run, at most one goroutine started for that id has a
    context that was not cancelled; this holds across ticks on which
    the id disappears from the store's result and comes back. *)
Theorem at_most_one_uncancelled_routine (st : MonitorState) (id : Z) :
  reachable st -> (length (uncancelledFor id st) <= 1)%nat.
Proof.
  intros Hr. destruct (reachable_invariant st Hr) as [_ Hnd Htr].
  unfold uncancelledFor.
  destruct (trackedExperiments st !! id) as [c|] eqn:Hlk.
  - apply (filter_at_most_one r_ctx _ c); [exact Hnd|].
    intros r Hin [Hkey Hnc]. specialize (Htr r Hin Hnc).
    rewrite Hkey, Hlk in Htr. congruence.
  - apply (filter_at_most_one r_ctx _ 0%nat); [exact Hnd|].
    intros r Hin [Hkey Hnc]. specialize (Htr r Hin Hnc).
    rewrite Hkey, Hlk in Htr. congruence.
Qed.

Lemma at_most_one_uncancelled_routine_witness :
  reachable flapping /\ (length (uncancelledFor 1 flapping) <= 1)%nat.
Proof.
  split; [exact flapping_reachable|].
  exact (at_most_one_uncancelled_routine flapping 1 flapping_reachable).
Defined.

End OuterFacts.

(* ===================================================================== *)
(** ** The runtime discovery server *)
(* ===================================================================== *)

Module RtdsFacts.

Import Rtds Fixtures.

(** *** Start-up validation *)

(** The validation the spec describes rejects every heartbeat interval
    that is not strictly below the TTL. *)
Lemma New_spec_rejects : rejects_heartbeat_not_below_ttl New_spec.
Proof.
  intros c t h Ht Hh Hge. unfold New_spec. rewrite Ht, Hh.
  destruct (AsDuration h <? AsDuration t) eqn:Hlt.
  - apply Z.ltb_lt in Hlt. contradiction.
  - eauto.
Qed.

(** ... and therefore fails the assertion of [newTestServer(t, true)],
    which configures both durations to one second. *)
Lemma New_spec_fails_newTestServer : ~ newTestServer_NoError New_spec true.
Proof. intros [m Hm]. vm_compute in Hm. discriminate Hm. Qed.

(** No constructor can both reject every heartbeat interval that is
    not strictly below the TTL and let [newTestServer(t, true)] pass:
    the test configures [resource_ttl = heartbeat_interval = 1s] and
    asserts that [New] returns no error. *)
Lemma strict_validation_fails_newTestServer :
  ~ exists (M : Type) (New : Config -> M + string),
      newTestServer_NoError New true /\ rejects_heartbeat_not_below_ttl New.
Proof.
  intros (M & New & [m Hok] & Hrej).
  destruct (Hrej (newTestServer_config true) (mkDuration 1 0) (mkDuration 1 0)
                 eq_refl eq_refl) as [err Herr].
  - vm_compute. discriminate.
  - congruence.
Qed.

(** *** Requests *)



(** What [push] does: nothing, or one content response for the current
    snapshot. *)
Lemma push_spec (now : Z) (sv sv' : Server) (out : list Emitted) :
  push now sv = (sv', out) ->
  config sv' = config sv /\
  ((out = [] /\ sv' = sv) \/
   exists sn names,
     phase (stream sv) = Idle /\
     currentSnapshot sv = Some (sn, names) /\
     fst <$> last_sent (stream sv) <> Some (version sn) /\
     out = [(Content,
             mkResponse (version sn) (pretty (S (nonce_counter (stream sv))))
               (contentResource (config sv) (proto sv) <$> selected names sn))]).
Proof.
  unfold push. intros Hp.
  destruct (phase (stream sv)) eqn:Hph;
    [|injection Hp as <- <-; split; [done|by left]].
  destruct (currentSnapshot sv) as [[sn names]|] eqn:Hcur;
    [|injection Hp as <- <-; split; [done|by left]].
  destruct (decide (fst <$> last_sent (stream sv) = Some (version sn))) as [Heq|Hne].
  - injection Hp as <- <-. split; [done|by left].
  - injection Hp as <- <-. split; [done|]. right. by exists sn, names.
Qed.

(** What [heartbeat] does: nothing, or one TTL-only response for the
    current snapshot; it never touches [last_sent]. *)
Lemma heartbeat_spec (now : Z) (sv sv' : Server) (out : list Emitted) :
  heartbeat now sv = (sv', out) ->
  config sv' = config sv /\
  last_sent (stream sv') = last_sent (stream sv) /\
  (out = [] \/
   exists t sn names,
     ResourceTtl (config sv) = Some t /\
     phase (stream sv) = Idle /\
     currentSnapshot sv = Some (sn, names) /\
     out = [(Heartbeat,
             mkResponse (version sn) (pretty (S (nonce_counter (stream sv))))
               (heartbeatResource t <$> selected names sn))]).
Proof.
  unfold heartbeat. intros Hh.
  destruct (ResourceTtl (config sv)) as [t|] eqn:Httl;
    [|injection Hh as <- <-; by repeat split; try left].
  destruct (phase (stream sv)) eqn:Hph;
    [|injection Hh as <- <-; by repeat split; try left].
  destruct (heartbeat_deadline (stream sv)) as [due|];
    [|injection Hh as <- <-; by repeat split; try left].
  destruct (currentSnapshot sv) as [[sn names]|] eqn:Hcur;
    [|injection Hh as <- <-; by repeat split; try left].
  destruct (due <=? now).
  - injection Hh as <- <-. repeat split; try done. right. by exists t, sn, names.
  - injection Hh as <- <-. by repeat split; try left.
Qed.

(** A settled event sends at most what [push] or [heartbeat] sends. *)
Lemma settle_spec (now : Z) (sv sv' : Server) (out : list Emitted) :
  settle now sv = (sv', out) ->
  config sv' = config sv /\
  (out = [] \/
   (exists sn names,
      currentSnapshot sv = Some (sn, names) /\
      out = [(Content,
              mkResponse (version sn) (pretty (S (nonce_counter (stream sv))))
                (contentResource (config sv) (proto sv) <$> selected names sn))]) \/
   (exists t sn names,
      ResourceTtl (config sv) = Some t /\
      currentSnapshot sv = Some (sn, names) /\
      fst <$> last_sent (stream sv) = Some (version sn) /\
      last_sent (stream sv') = last_sent (stream sv) /\
      out = [(Heartbeat,
              mkResponse (version sn) (pretty (S (nonce_counter (stream sv))))
                (heartbeatResource t <$> selected names sn))])).
Proof.
  unfold settle. intros Hs.
  destruct (push now sv) as [sv1 out1] eqn:Hp.
  pose proof Hp as Hp0.
  apply push_spec in Hp as [Hcfg [[-> ->]|(sn & names & Hph & Hcur & Hne & ->)]].
  - apply heartbeat_spec in Hs
      as (Hcfg' & Hls & [->|(t & sn & names & Httl & Hph & Hcur & ->)]).
    + split; [done|by left].
    + split; [done|]. right. right. exists t, sn, names.
      repeat split; try done.
      unfold push in Hp0. rewrite Hph, Hcur in Hp0.
      destruct (decide (fst <$> last_sent (stream sv) = Some (version sn)));
        [done|discriminate Hp0].
  - injection Hs as <- <-. split; [done|]. right. left. by exists sn, names.
Qed.

Lemma contentResource_ttl (c : Config) (v : ProtoVersion) (t : Duration)
    (l : list (string * string)) :
  ResourceTtl c = Some t ->
  ttlShaped t (Content, mkResponse "" "" (contentResource c v <$> l)).
Proof.
  intros Httl. unfold ttlShaped, allTtl, bodies. simpl.
  split; apply Forall_fmap, Forall_forall; intros kv _; simpl;
    unfold contentResource; rewrite Httl; eexists; (split; [reflexivity|done]).
Qed.

Lemma heartbeatResource_ttl (t : Duration) (l : list (string * string)) :
  ttlShaped t (Heartbeat, mkResponse "" "" (heartbeatResource t <$> l)).
Proof.
  unfold ttlShaped, allTtl, bodies. simpl.
  split; apply Forall_fmap, Forall_forall; intros kv _; simpl;
    eexists; (split; [reflexivity|done]).
Qed.

Lemma settle_ttlShaped (now : Z) (sv sv' : Server) (out : list Emitted)
    (t : Duration) :
  ResourceTtl (config sv) = Some t ->
  settle now sv = (sv', out) ->
  Forall (ttlShaped t) out.
Proof.
  intros Httl Hs.
  apply settle_spec in Hs
    as [_ [->|[(sn & names & _ & ->)|(t' & sn & names & Httl' & _ & _ & _ & ->)]]].
  - constructor.
  - apply Forall_singleton.
    exact (contentResource_ttl (config sv) (proto sv) t (selected names sn) Httl).
  - rewrite Httl in Httl'. injection Httl' as <-.
    apply Forall_singleton. exact (heartbeatResource_ttl t (selected names sn)).
Qed.

Lemma handleRequest_config (req : DiscoveryRequest) (sv : Server) :
  config (handleRequest req sv) = config sv.
Proof.
  unfold handleRequest. destruct (ErrorDetail req); [done|].
  repeat case_decide; done.
Qed.

Lemma expireNonce_config (now : Z) (sv : Server) :
  config (expireNonce now sv) = config sv.
Proof.
  unfold expireNonce. destruct (phase (stream sv)); [done|].
  destruct (nonce_deadline (stream sv)); [|done].
  by destruct (_ <=? _).
Qed.

Lemma onEvent_ttlShaped (ev : Event) (sv sv' : Server) (out : list Emitted)
    (t : Duration) :
  ResourceTtl (config sv) = Some t ->
  onEvent ev sv = (sv', out) ->
  config sv' = config sv /\ Forall (ttlShaped t) out.
Proof.
  intros Httl Hev. destruct ev as [now req|now cluster sn|now]; simpl in Hev.
  - split.
    + apply settle_spec in Hev as [-> _]. apply handleRequest_config.
    + eapply settle_ttlShaped; [|exact Hev]. by rewrite handleRequest_config.
  - split.
    + by apply settle_spec in Hev as [-> _].
    + eapply settle_ttlShaped; [|exact Hev]. done.
  - split.
    + apply settle_spec in Hev as [-> _]. apply expireNonce_config.
    + eapply settle_ttlShaped; [|exact Hev]. by rewrite expireNonce_config.
Qed.

Lemma run_ttlShaped (evs : list Event) :
  forall (sv : Server) (t : Duration),
    ResourceTtl (config sv) = Some t ->
    Forall (ttlShaped t) (run evs sv).2.
Proof.
  induction evs as [|ev evs IH]; intros sv t Httl; [constructor|].
  simpl. destruct (onEvent ev sv) as [sv1 out1] eqn:Hev.
  destruct (onEvent_ttlShaped ev sv sv1 out1 t Httl Hev) as [Hcfg Hout].
  specialize (IH sv1 t). rewrite Hcfg in IH. specialize (IH Httl).
  destruct (run evs sv1) as [sv2 out2]. simpl in *.
  apply Forall_app. by split.
Qed.

(** What the NACK of a stream whose cache has moved on does: one content
    response for the new version is sent, and the "resources served"
    counter goes from 1 to 2. *)
Lemma nack_after_cache_moved_on :
  let sv := (run movedOnEvents (newServer (newTestServer_config false) V3)).1 in
  totalResourcesServed (metrics sv) V3 = 1 /\
  (onEvent (Recv 2000 nackRequest) sv).2
    = [(Content,
        mkResponse "v2" "2"
          [Bare (mkAny (runtimeTypeUrl V3) "ingress.fault.enabled=1")])] /\
  totalResourcesServed (metrics (onEvent (Recv 2000 nackRequest) sv).1) V3 = 2 /\
  totalErrorsReceived (metrics (onEvent (Recv 2000 nackRequest) sv).1) V3 = 1.
Proof. vm_compute. repeat split. Qed.






(** The exchange of [TestServerStats] on the model: one response is
    served, then the NACK is counted and nothing more is sent. *)
Lemma TestServerStats_on_model :
  let r := run statsEvents (newServer (newTestServer_config false) V3) in
  length r.2 = 1%nat /\
  totalResourcesServed (metrics r.1) V3 = 1 /\
  totalErrorsReceived (metrics r.1) V3 = 1 /\
  totalResourcesServed (metrics r.1) V2 = 0 /\
  totalErrorsReceived (metrics r.1) V2 = 0.
Proof. vm_compute. repeat split. Qed.

(** C9: when [resource_ttl] is configured, every resource of every
    response a stream emits is wrapped and carries a TTL equal to
    [resource_ttl]; content responses carry a body in every resource;
    heartbeat responses carry none, and a heartbeat repeats the version
    of the current snapshot, which is the version last sent, without
    replacing what was last sent. *)
Theorem ttl_on_every_emitted_resource (sv : Server) (t : Duration)
    (evs : list Event) :
  ResourceTtl (config sv) = Some t ->
  Forall (ttlShaped t) (run evs sv).2 /\
  (forall now sv0 sv1 out r,
     settle now sv0 = (sv1, out) -> (Heartbeat, r) ∈ out ->
     Forall (fun w => exists res, w = Wrapped res /\ ResourceBody res = None)
            (Resources r) /\
     exists sn names,
       currentSnapshot sv0 = Some (sn, names) /\
       rVersionInfo r = version sn /\
       fst <$> last_sent (stream sv0) = Some (version sn) /\
       last_sent (stream sv1) = last_sent (stream sv0)).
Proof.
  intros Httl. split; [by apply run_ttlShaped|].
  intros now sv0 sv1 out r Hs Hin.
  apply settle_spec in Hs
    as [_ [->|[(sn & names & _ & ->)|(t' & sn & names & _ & Hcur & Hls & Hkeep & ->)]]].
  - by apply elem_of_nil in Hin.
  - apply list_elem_of_singleton in Hin. discriminate Hin.
  - apply list_elem_of_singleton in Hin. injection Hin as ->. split.
    + simpl. apply Forall_fmap, Forall_forall. intros kv _. simpl.
      eexists. split; reflexivity.
    + by exists sn, names.
Qed.

Lemma ttl_on_every_emitted_resource_witness :
  ResourceTtl (config ttlServer) = Some (mkDuration 1 0) /\
  Forall (ttlShaped (mkDuration 1 0)) (run ttlEvents ttlServer).2.
Proof.
  split; [reflexivity|].
  exact (proj1 (ttl_on_every_emitted_resource ttlServer (mkDuration 1 0)
                  ttlEvents eq_refl)).
Defined.

(** The exchange of [TestResourceTTL] on the model: the first response
    has TTL 1s and a body, the second one is a heartbeat with TTL 1s and
    no body. *)
Lemma TestResourceTTL_on_model :
  (run ttlEvents ttlServer).2 =
    [(Content, ttlFirstResponse);
     (Heartbeat,
      mkResponse "v2" "2"
        [Wrapped (mkResource "tests" (Some (mkDuration 1 0)) None)])].
Proof. vm_compute. reflexivity. Qed.

End RtdsFacts.

(* ===================================================================== *)
(** ** More on the inner loop *)
(* ===================================================================== *)

Module InnerMore.

Import Fixtures InnerFacts.

Lemma successes_app (a b : list Call) :
  successes (a ++ b) = (successes a + successes b)%nat.
Proof.
  unfold successes. by rewrite terminateCalls_app, filter_app, length_app.
Qed.

Lemma firing_cons_incl (c : TerminationCriteria) (cs : list TerminationCriteria)
    (e : Experiment) (msg : string) :
  msg ∈ firing cs e -> msg ∈ firing (c :: cs) e.
Proof.
  unfold firing. simpl.
  destruct (ShouldTerminate c _ e) as [[m|]|]; [by right|done|done].
Qed.

Lemma shouldTerminateCalls_app (a b : list Call) :
  shouldTerminateCalls (a ++ b) = shouldTerminateCalls a ++ shouldTerminateCalls b.
Proof. unfold shouldTerminateCalls. apply omap_app. Qed.

Section Accounting.

Context {S : Type} `{Storer S}.

Lemma accounted_refl (cs : list TerminationCriteria) (e : Experiment)
    (w : World S) :
  accounted cs e w w [].
Proof.
  unfold accounted, successes. simpl.
  rewrite app_nil_r. split; [done|]. split; [lia|]. split; [lia|constructor].
Qed.

Lemma accounted_trans (cs : list TerminationCriteria) (e : Experiment)
    (w1 w2 w3 : World S) (n1 n2 : list Call) :
  accounted cs e w1 w2 n1 -> accounted cs e w2 w3 n2 ->
  accounted cs e w1 w3 (n1 ++ n2).
Proof.
  intros (Hc1 & Ht1 & Hl1 & Hf1) (Hc2 & Ht2 & Hl2 & Hf2).
  unfold accounted. rewrite successes_app, terminateCalls_app, length_app.
  repeat split.
  - rewrite Hc2, Hc1. by rewrite app_assoc.
  - lia.
  - lia.
  - apply Forall_app. by split.
Qed.

Lemma accounted_weaken (c : TerminationCriteria) (cs : list TerminationCriteria)
    (e : Experiment) (w w' : World S) (new : list Call) :
  accounted cs e w w' new -> accounted (c :: cs) e w w' new.
Proof.
  intros (Hc & Ht & Hl & Hf). repeat split; try done.
  eapply Forall_impl; [exact Hf|]. intros x [Hid Hr]. split; [done|].
  by apply firing_cons_incl.
Qed.

(** The criteria loop, whatever the store answers and however it ends:
    its effects are accounted for by the calls it made, and the flag it
    returns is the one it got or [true] when a call succeeded. *)
Lemma rangeCriterias_accounted (cs : list TerminationCriteria) :
  forall (i : nat) (e : Experiment) (t : bool) (w : World S),
    exists new,
      accounted cs e w (worldOfTick (rangeCriterias cs i e t w)) new /\
      (forall t' w', rangeCriterias cs i e t w = TickDone t' w' ->
         t' = t || bool_decide (0 < successes new)%nat).
Proof.
  induction cs as [|c cs IH]; intros i e t w.
  - exists []. split; [apply accounted_refl|].
    intros t' w' Heq. injection Heq as <- <-. simpl.
    by rewrite orb_false_r.
  - simpl.
    destruct (ShouldTerminate c (ptypes_Timestamp (StartTime e)) e)
      as [[msg|]|] eqn:Hst.
    + destruct (TerminateExperiment (store w) (Id e) msg) as [s' [err|]] eqn:Hte.
      * match goal with
        | |- context [rangeCriterias cs ?j e t ?w1] =>
            destruct (IH j e t w1) as (new & Hacc & Hflag)
        end.
        exists ([CallShouldTerminate i (ptypes_Timestamp (StartTime e)) e;
                 CallTerminateExperiment (Id e) msg (Some err)] ++ new).
        split.
        -- eapply accounted_trans; [|apply accounted_weaken; exact Hacc].
           unfold accounted, successes, firing. simpl. rewrite Hst. simpl.
           rewrite <- app_assoc. simpl. rewrite length_app. simpl.
           split; [done|]. split; [lia|]. split; [lia|].
           apply Forall_singleton. simpl. split; [done|by left].
        -- intros t' w' Heq. rewrite (Hflag t' w' Heq).
           rewrite successes_app. unfold successes at 2. simpl. done.
      * match goal with
        | |- context [rangeCriterias cs ?j e true ?w1] =>
            destruct (IH j e true w1) as (new & Hacc & Hflag)
        end.
        exists ([CallShouldTerminate i (ptypes_Timestamp (StartTime e)) e;
                 CallTerminateExperiment (Id e) msg None] ++ new).
        split.
        -- eapply accounted_trans; [|apply accounted_weaken; exact Hacc].
           unfold accounted, successes, firing. simpl. rewrite Hst. simpl.
           rewrite <- app_assoc. simpl. rewrite length_app. simpl.
           split; [done|]. split; [lia|]. split; [lia|].
           apply Forall_singleton. simpl. split; [done|by left].
        -- intros t' w' Heq. rewrite (Hflag t' w' Heq).
           rewrite successes_app. unfold successes at 1. simpl.
           by rewrite orb_true_r.
    + match goal with
      | |- context [rangeCriterias cs ?j e t ?w1] =>
          destruct (IH j e t w1) as (new & Hacc & Hflag)
      end.
      exists ([CallShouldTerminate i (ptypes_Timestamp (StartTime e)) e] ++ new).
      split.
      * eapply accounted_trans; [|apply accounted_weaken; exact Hacc].
        unfold accounted, successes. simpl.
        split; [done|]. split; [lia|]. split; [lia|constructor].
      * intros t' w' Heq. rewrite (Hflag t' w' Heq).
        rewrite successes_app. unfold successes at 1. simpl. done.
    + exists [CallShouldTerminate i (ptypes_Timestamp (StartTime e)) e].
      split; [|intros t' w' Heq; discriminate Heq].
      unfold accounted, successes. simpl.
      split; [done|]. split; [lia|]. split; [lia|constructor].
Qed.

Lemma tick_accounted (cs : list TerminationCriteria) (e : Experiment)
    (t : bool) (w : World S) :
  exists new, accounted cs e w (worldOfTick (tick cs e t w)) new.
Proof.
  unfold tick. destruct t.
  - exists []. apply accounted_refl.
  - destruct (rangeCriterias_accounted cs 0 e false w) as (new & Hacc & _).
    by exists new.
Qed.

Lemma selectLoop_accounted (cs : list TerminationCriteria) (e : Experiment)
    (events : list Select) :
  forall (t : bool) (w : World S),
    exists new, accounted cs e w (worldOfLoop (selectLoop cs e events t w)) new.
Proof.
  induction events as [|ev events IH]; intros t w.
  - exists []. apply accounted_refl.
  - destruct ev; simpl; [|exists []; apply accounted_refl].
    destruct (tick_accounted cs e t w) as (n1 & Hacc1).
    destruct (tick cs e t w) as [t1 w1|w1]; simpl in Hacc1.
    + destruct (IH t1 w1) as (n2 & Hacc2).
      exists (n1 ++ n2). by eapply accounted_trans.
    + by exists n1.
Qed.

(** Running on [ev1 ++ ev2] is running on [ev1] and, when that run is
    still waiting in its [select], going on with [ev2]. *)
Lemma selectLoop_app (cs : list TerminationCriteria) (e : Experiment)
    (ev1 ev2 : list Select) :
  forall (t t1 : bool) (w w1 : World S),
    selectLoop cs e ev1 t w = Blocked t1 w1 ->
    selectLoop cs e (ev1 ++ ev2) t w = selectLoop cs e ev2 t1 w1.
Proof.
  induction ev1 as [|ev ev1 IH]; intros t t1 w w1 Hrun.
  - simpl in Hrun. injection Hrun as <- <-. reflexivity.
  - destruct ev; simpl in *; [|discriminate Hrun].
    destruct (tick cs e t w) as [t' w'|w']; [|discriminate Hrun].
    by apply IH.
Qed.

(** The criteria loop from index [i] on, when no criterion panics,
    invokes [ShouldTerminate] of each criterion once, in order, with the
    start time and record of [e]. *)
Lemma rangeCriterias_evaluates_all (cs : list TerminationCriteria) :
  forall (i : nat) (e : Experiment) (t : bool) (w : World S),
    noPanic cs e ->
    exists t' w' new,
      rangeCriterias cs i e t w = TickDone t' w' /\
      calls w' = calls w ++ new /\
      shouldTerminateCalls new = seq i (length cs) /\
      evaluatedAgainst e new.
Proof.
  induction cs as [|c cs IH]; intros i e t w Hnp.
  - exists t, w, []. rewrite app_nil_r. repeat split. constructor.
  - apply Forall_cons in Hnp as [Hc Hnp]. simpl.
    destruct (ShouldTerminate c (ptypes_Timestamp (StartTime e)) e)
      as [[msg|]|] eqn:Hst; [| |congruence].
    + destruct (TerminateExperiment (store w) (Id e) msg) as [s' r] eqn:Hte.
      destruct r as [err|];
        match goal with
        | |- context [rangeCriterias cs ?j e ?b ?w1] =>
            destruct (IH j e b w1 Hnp) as (t' & w' & new & Hrun & Hcalls & Hseq & Hev)
        end;
        exists t', w';
        eexists ([CallShouldTerminate i (ptypes_Timestamp (StartTime e)) e;
                  CallTerminateExperiment (Id e) msg _] ++ new);
        (split; [exact Hrun|]);
        (split; [rewrite Hcalls; simpl; by rewrite <- !app_assoc|]);
        (split; [rewrite shouldTerminateCalls_app, Hseq; reflexivity|]);
        repeat constructor; exact Hev.
    + destruct (IH (Datatypes.S i) e t
                   (mkWorld (store w) (terminationCount w) (logged w)
                      (calls w ++ [CallShouldTerminate i
                                     (ptypes_Timestamp (StartTime e)) e])) Hnp)
        as (t' & w' & new & Hrun & Hcalls & Hseq & Hev).
      exists t', w',
        ([CallShouldTerminate i (ptypes_Timestamp (StartTime e)) e] ++ new).
      split; [exact Hrun|].
      split; [rewrite Hcalls; simpl; by rewrite <- !app_assoc|].
      split; [rewrite shouldTerminateCalls_app, Hseq; reflexivity|].
      repeat constructor; exact Hev.
Qed.

(** Criteria that all return nil leave everything but the list of calls
    as it was. *)
Lemma rangeCriterias_quiet (cs : list TerminationCriteria) :
  forall (i : nat) (e : Experiment) (t : bool) (w : World S),
    allQuiet cs e ->
    exists w',
      rangeCriterias cs i e t w = TickDone t w' /\
      store w' = store w /\ terminationCount w' = terminationCount w /\
      logged w' = logged w /\
      terminateCalls (calls w') = terminateCalls (calls w).
Proof.
  induction cs as [|c cs IH]; intros i e t w Hq.
  - by exists w.
  - apply Forall_cons in Hq as [Hc Hq]. simpl. rewrite Hc.
    destruct (IH (Datatypes.S i) e t
                 (mkWorld (store w) (terminationCount w) (logged w)
                    (calls w ++ [CallShouldTerminate i
                                   (ptypes_Timestamp (StartTime e)) e])) Hq)
      as (w' & Hrun & Hs & Ht & Hl & Hcalls).
    exists w'. split; [exact Hrun|]. simpl in *.
    repeat split; try done.
    rewrite Hcalls, terminateCalls_app. simpl. by rewrite app_nil_r.
Qed.

End Accounting.

(** X1: over any run of an inner loop (any criteria, any store, any
    sequence of ticks and cancellation, panics included) the
    "terminations" counter grows by exactly the number of
    [TerminateExperiment] calls that returned no error, and one line is
    logged per [TerminateExperiment] call. *)
Theorem counter_counts_successful_terminations (S : Type) (St : Storer S)
    (cs : list TerminationCriteria) (events : list Select) (e : Experiment)
    (w : World S) :
  exists new,
    calls (worldOfLoop (monitorSingleExperiment cs events e w)) = calls w ++ new /\
    terminationCount (worldOfLoop (monitorSingleExperiment cs events e w))
      = terminationCount w + Z.of_nat (successes new) /\
    length (logged (worldOfLoop (monitorSingleExperiment cs events e w)))
      = (length (logged w) + length (terminateCalls new))%nat.
Proof.
  destruct (selectLoop_accounted cs e events false w) as (new & Hc & Ht & Hl & _).
  by exists new.
Qed.

(** X2: an inner loop never terminates another experiment: every
    [TerminateExperiment] call it makes carries the id of the experiment
    it monitors and, as reason, the text of an error one of the
    criteria returned for that experiment. *)
Theorem terminates_only_its_own_experiment (S : Type) (St : Storer S)
    (cs : list TerminationCriteria) (events : list Select) (e : Experiment)
    (w : World S) :
  exists new,
    calls (worldOfLoop (monitorSingleExperiment cs events e w)) = calls w ++ new /\
    Forall (fun c => c.1.1 = Id e /\ c.1.2 ∈ firing cs e) (terminateCalls new).
Proof.
  destruct (selectLoop_accounted cs e events false w) as (new & Hc & _ & _ & Hf).
  by exists new.
Qed.

(** X3: a tick of a loop that is not parked parks it exactly when it
    incremented the "terminations" counter, that is when one of its
    [TerminateExperiment] calls succeeded; a tick whose calls all failed
    leaves the loop unparked, so the criteria are evaluated again on the
    next tick. *)
Theorem tick_parks_iff_counter_grew (S : Type) (St : Storer S)
    (cs : list TerminationCriteria) (e : Experiment) (w w' : World S)
    (t' : bool) :
  tick cs e false w = TickDone t' w' ->
  (t' = true <-> terminationCount w < terminationCount w').
Proof.
  unfold tick. intros Hrun.
  destruct (rangeCriterias_accounted cs 0 e false w) as (new & Hacc & Hflag).
  rewrite Hrun in Hacc. destruct Hacc as (_ & Ht & _). simpl in Ht.
  rewrite (Hflag t' w' Hrun). simpl. rewrite Ht.
  rewrite bool_decide_eq_true. lia.
Qed.

Lemma tick_parks_iff_counter_grew_witness :
  tick (H := flakyStore) [expired] e1 false (world0 1%nat)
    = TickDone false
        (mkWorld 0%nat 0 [LogFailedToTerminate "store unavailable" 1]
           [CallShouldTerminate 0 100000000000 e1;
            CallTerminateExperiment 1 "expired" (Some "store unavailable")]) /\
  (false = true <-> 0 < 0).
Proof.
  split; [reflexivity|].
  exact (tick_parks_iff_counter_grew nat flakyStore [expired] e1 (world0 1%nat)
           _ false eq_refl).
Defined.

(** X4: on a tick of a loop that is not parked, when no criterion
    panics, [ShouldTerminate] of every configured criterion is invoked
    exactly once, in the order of the list, each time with the start
    time and the record of the monitored experiment; a firing criterion
    does not stop the later ones from being evaluated. *)
Theorem tick_evaluates_every_criterion (S : Type) (St : Storer S)
    (cs : list TerminationCriteria) (e : Experiment) (w : World S) :
  noPanic cs e ->
  exists t' w' new,
    tick cs e false w = TickDone t' w' /\
    calls w' = calls w ++ new /\
    shouldTerminateCalls new = seq 0 (length cs) /\
    evaluatedAgainst e new.
Proof. intros Hnp. unfold tick. by apply rangeCriterias_evaluates_all. Qed.

Lemma tick_evaluates_every_criterion_witness :
  noPanic [expired; quiet; tooManyErrors] e2 /\
  exists t' w' new,
    tick (H := okStore) [expired; quiet; tooManyErrors] e2 false (world0 tt)
      = TickDone t' w' /\
    calls w' = calls (world0 tt) ++ new /\
    shouldTerminateCalls new = seq 0 (length [expired; quiet; tooManyErrors]) /\
    evaluatedAgainst e2 new.
Proof.
  assert (Hnp : noPanic [expired; quiet; tooManyErrors] e2)
    by (repeat constructor; discriminate).
  split; [exact Hnp|].
  exact (tick_evaluates_every_criterion unit okStore
           [expired; quiet; tooManyErrors] e2 (world0 tt) Hnp).
Defined.

(** X5: once a run has parked the loop (it is waiting in its [select]
    with the flag set), whatever ticks follow change nothing: the loop
    makes no further call, and it returns exactly when its context is
    cancelled. *)
Theorem parked_loop_only_waits_for_cancellation (S : Type) (St : Storer S)
    (cs : list TerminationCriteria) (e : Experiment)
    (ev1 ev2 : list Select) (w w1 : World S) :
  monitorSingleExperiment cs ev1 e w = Blocked true w1 ->
  monitorSingleExperiment cs (ev1 ++ ev2) e w
    = if decide (CtxDone ∈ ev2) then Returned w1 else Blocked true w1.
Proof.
  unfold monitorSingleExperiment. intros Hrun.
  rewrite (selectLoop_app cs e ev1 ev2 false true w w1 Hrun).
  apply selectLoop_parked.
Qed.

Lemma parked_loop_only_waits_for_cancellation_witness :
  monitorSingleExperiment (H := okStore) [expired] [TickerC] e1 (world0 tt)
    = Blocked true
        (mkWorld tt 1 [LogTerminated 1]
           [CallShouldTerminate 0 100000000000 e1;
            CallTerminateExperiment 1 "expired" None]) /\
  monitorSingleExperiment (H := okStore) [expired]
      ([TickerC] ++ [TickerC; TickerC; CtxDone; TickerC]) e1 (world0 tt)
    = Returned
        (mkWorld tt 1 [LogTerminated 1]
           [CallShouldTerminate 0 100000000000 e1;
            CallTerminateExperiment 1 "expired" None]).
Proof.
  split; [reflexivity|].
  exact (parked_loop_only_waits_for_cancellation unit okStore [expired] e1
           [TickerC] [TickerC; TickerC; CtxDone; TickerC] (world0 tt) _ eq_refl).
Defined.

Lemma selectLoop_quiet {S : Type} `{Storer S} (cs : list TerminationCriteria)
    (e : Experiment) (events : list Select) :
  allQuiet cs e ->
  forall (w : World S),
    exists w',
      (selectLoop cs e events false w = Blocked false w' \/
       selectLoop cs e events false w = Returned w') /\
      store w' = store w /\ terminationCount w' = terminationCount w /\
      logged w' = logged w /\
      terminateCalls (calls w') = terminateCalls (calls w).
Proof.
  intros Hq. induction events as [|ev events IH]; intros w.
  - exists w. split; [by left|done].
  - destruct ev; simpl; [|exists w; split; [by right|done]].
    unfold tick.
    destruct (rangeCriterias_quiet cs 0 e false w Hq)
      as (w1 & -> & Hs & Ht & Hl & Hc).
    destruct (IH w1) as (w' & Hrun & Hs' & Ht' & Hl' & Hc').
    exists w'. split; [exact Hrun|]. repeat split; congruence.
Qed.

(** X6: an experiment for which every criterion returns nil is never
    terminated: whatever ticks arrive, its inner loop makes no
    [TerminateExperiment] call, leaves the store, the counter and the
    log as they were, never parks, and ends only by returning on
    cancellation. *)
Theorem quiet_criteria_never_terminate (S : Type) (St : Storer S)
    (cs : list TerminationCriteria) (events : list Select) (e : Experiment)
    (w : World S) :
  allQuiet cs e ->
  exists w',
    (monitorSingleExperiment cs events e w = Blocked false w' \/
     monitorSingleExperiment cs events e w = Returned w') /\
    store w' = store w /\ terminationCount w' = terminationCount w /\
    logged w' = logged w /\
    terminateCalls (calls w') = terminateCalls (calls w).
Proof. intros Hq. by apply selectLoop_quiet. Qed.

Lemma quiet_criteria_never_terminate_witness :
  allQuiet [quiet; quiet] e1 /\
  exists w',
    (monitorSingleExperiment (H := okStore) [quiet; quiet]
       [TickerC; TickerC; TickerC] e1 (world0 tt) = Blocked false w' \/
     monitorSingleExperiment (H := okStore) [quiet; quiet]
       [TickerC; TickerC; TickerC] e1 (world0 tt) = Returned w') /\
    store w' = store (world0 tt) /\
    terminationCount w' = terminationCount (world0 tt) /\
    logged w' = logged (world0 tt) /\
    terminateCalls (calls w') = terminateCalls (calls (world0 tt)).
Proof.
  assert (Hq : allQuiet [quiet; quiet] e1) by (repeat constructor).
  split; [exact Hq|].
  exact (quiet_criteria_never_terminate unit okStore [quiet; quiet]
           [TickerC; TickerC; TickerC] e1 (world0 tt) Hq).
Defined.

Lemma flaky_retry (c : TerminationCriteria) (e : Experiment) (msg : string) :
  ShouldTerminate c (ptypes_Timestamp (StartTime e)) e = Returns (Some msg) ->
  forall (n : nat) (w : World nat),
    store w = n ->
    exists w',
      selectLoop (H := flakyStore) [c] e (replicate (Datatypes.S n) TickerC) false w
        = Blocked true w' /\
      terminateCalls (calls w')
        = terminateCalls (calls w)
          ++ replicate n (Id e, msg, Some "store unavailable")
          ++ [(Id e, msg, None)] /\
      terminationCount w' = terminationCount w + 1 /\
      store w' = 0%nat.
Proof.
  intros Hst. induction n as [|n IH]; intros w Hs.
  - simpl. unfold tick. simpl. rewrite Hst, Hs. simpl.
    eexists. split; [reflexivity|]. simpl.
    rewrite !terminateCalls_app. simpl. by rewrite app_nil_r.
  - change (replicate (Datatypes.S (Datatypes.S n)) TickerC)
      with (TickerC :: replicate (Datatypes.S n) TickerC).
    cbn [selectLoop]. unfold tick. cbn [rangeCriterias]. rewrite Hst, Hs.
    cbn [TerminateExperiment flakyStore store].
    match goal with
    | |- context [selectLoop _ e _ false ?w1] =>
        destruct (IH w1 eq_refl) as (w' & Hrun & Hc & Ht & Hs')
    end.
    exists w'. split; [exact Hrun|]. split; [|split; [exact Ht|exact Hs']].
    rewrite Hc. cbn [calls]. rewrite !terminateCalls_app. simpl.
    rewrite app_nil_r. by rewrite <- !app_assoc.
Qed.

(** X7: a failed [TerminateExperiment] is retried on the next tick.
    With one criterion that fires for the experiment and a store that
    refuses the first [n] calls, [n+1] ticks make [n+1] calls, the last
    of which succeeds; the loop is then parked and the counter was
    incremented once. *)
Theorem failed_termination_is_retried (c : TerminationCriteria)
    (e : Experiment) (msg : string) (n : nat) :
  ShouldTerminate c (ptypes_Timestamp (StartTime e)) e = Returns (Some msg) ->
  exists w',
    monitorSingleExperiment (H := flakyStore) [c]
        (replicate (Datatypes.S n) TickerC) e (world0 n)
      = Blocked true w' /\
    terminateCalls (calls w')
      = replicate n (Id e, msg, Some "store unavailable") ++ [(Id e, msg, None)] /\
    terminationCount w' = 1.
Proof.
  intros Hst.
  destruct (flaky_retry c e msg Hst n (world0 n) eq_refl)
    as (w' & Hrun & Hc & Ht & _).
  exists w'. split; [exact Hrun|]. split; [exact Hc|exact Ht].
Qed.

Lemma failed_termination_is_retried_witness :
  ShouldTerminate expired (ptypes_Timestamp (StartTime e1)) e1
    = Returns (Some "expired") /\
  exists w',
    monitorSingleExperiment (H := flakyStore) [expired]
        (replicate 3 TickerC) e1 (world0 2%nat)
      = Blocked true w' /\
    terminateCalls (calls w')
      = replicate 2 (Id e1, "expired", Some "store unavailable")
        ++ [(Id e1, "expired", None)] /\
    terminationCount w' = 1.
Proof.
  split; [reflexivity|].
  exact (failed_termination_is_retried expired e1 "expired" 2 eq_refl).
Defined.

End InnerMore.

(* ===================================================================== *)
(** ** More on the outer loop *)
(* ===================================================================== *)

Module OuterMore.

Import Outer OuterObs Fixtures OuterFacts.

Lemma ids_cons (e : Experiment) (es : list Experiment) :
  ids (e :: es) = {[Id e]} ∪ ids es.
Proof. reflexivity. Qed.

Lemma elem_of_ids (id : Z) (es : list Experiment) :
  id ∈ ids es <-> exists e, e ∈ es /\ Id e = id.
Proof.
  unfold ids. rewrite elem_of_list_to_set, list_elem_of_fmap.
  split; intros (e & H1 & H2); exists e; by split.
Qed.

(** The set [rangeExperiments] returns. *)
Lemma rangeExperiments_active (es : list Experiment) (d : nat -> nat)
    (rest : list Experiment) :
  forall (i : nat) (st : MonitorState) (act : gset Z),
    (rangeExperiments es d i rest st act).2 = ids rest ∪ act.
Proof.
  induction rest as [|e rest IH]; intros i st act; simpl.
  - unfold ids. simpl. set_solver.
  - destruct (trackedExperiments st !! Id e); rewrite IH, ids_cons; set_solver.
Qed.

(** An entry that is tracked is never overwritten. *)
Lemma rangeExperiments_keeps (es : list Experiment) (d : nat -> nat)
    (rest : list Experiment) (id : Z) (c : nat) :
  forall (i : nat) (st : MonitorState) (act : gset Z),
    trackedExperiments st !! id = Some c ->
    trackedExperiments (rangeExperiments es d i rest st act).1 !! id = Some c.
Proof.
  induction rest as [|e rest IH]; intros i st act Hlk; [exact Hlk|].
  simpl. destruct (trackedExperiments st !! Id e) eqn:He; [by apply IH|].
  apply IH. simpl. rewrite lookup_insert_ne; [exact Hlk|]. congruence.
Qed.

(** After the loop the tracked ids are the old ones and those of the
    experiments gone over. *)
Lemma rangeExperiments_dom (es : list Experiment) (d : nat -> nat)
    (rest : list Experiment) :
  forall (i : nat) (st : MonitorState) (act : gset Z),
    dom (trackedExperiments (rangeExperiments es d i rest st act).1)
      = dom (trackedExperiments st) ∪ ids rest.
Proof.
  induction rest as [|e rest IH]; intros i st act; simpl.
  - unfold ids. simpl. set_solver.
  - destruct (trackedExperiments st !! Id e) eqn:He.
    + rewrite IH, ids_cons.
      assert (Id e ∈ dom (trackedExperiments st)) by (apply elem_of_dom; eauto).
      set_solver.
    + rewrite IH, ids_cons. simpl. rewrite dom_insert_L. set_solver.
Qed.

(** When every experiment is tracked already the loop changes nothing. *)
Lemma rangeExperiments_all_tracked (es : list Experiment) (d : nat -> nat)
    (rest : list Experiment) :
  forall (i : nat) (st : MonitorState) (act : gset Z),
    ids rest ⊆ dom (trackedExperiments st) ->
    (rangeExperiments es d i rest st act).1 = st.
Proof.
  induction rest as [|e rest IH]; intros i st act Hsub; [reflexivity|].
  simpl. rewrite ids_cons in Hsub.
  destruct (trackedExperiments st !! Id e) eqn:He.
  - apply IH. set_solver.
  - exfalso. apply not_elem_of_dom in He. set_solver.
Qed.

Lemma cancelInactive_nothing_stale (act : gset Z) (st : MonitorState) :
  dom (trackedExperiments st) ⊆ act -> cancelInactive act st = st.
Proof.
  intros Hsub. destruct st as [tr rs ca ex g n]. unfold cancelInactive. simpl in *.
  assert (Hkeep : filter (fun kv : Z * nat => kv.1 ∈ act) tr = tr).
  { apply map_eq. intros k. destruct (tr !! k) as [c|] eqn:Hk.
    - apply map_lookup_filter_Some. split; [done|]. simpl.
      apply Hsub, elem_of_dom. eauto.
    - apply map_lookup_filter_None. left. done. }
  assert (Hstale : filter (fun kv : Z * nat => kv.1 ∉ act) tr = ∅).
  { apply map_eq. intros k. rewrite lookup_empty.
    apply map_lookup_filter_None. destruct (tr !! k) as [c|] eqn:Hk.
    - right. intros c' Hc'. simpl. intros Hn. apply Hn, Hsub, elem_of_dom. eauto.
    - by left. }
  rewrite Hkeep, Hstale, map_to_list_empty. simpl.
  f_equal. set_solver.
Qed.

(** X8: [monitorNewExperiments] returns the set of the ids of the
    experiments it was given, whether or not they were tracked and
    whatever their order or repetitions. *)
Theorem monitorNewExperiments_returns_ids (d : nat -> nat)
    (es : list Experiment) (st : MonitorState) :
  (monitorNewExperiments d es st).2 = list_to_set (Id <$> es).
Proof.
  unfold monitorNewExperiments. rewrite rangeExperiments_active.
  unfold ids. set_solver.
Qed.

(** The tracked ids after a tick on which the store answered. *)
Lemma outerTick_dom (d : nat -> nat) (es : list Experiment) (st : MonitorState) :
  dom (trackedExperiments (outerTick d (inl es) st)) = ids es.
Proof.
  unfold outerTick, monitorNewExperiments.
  pose proof (rangeExperiments_active es d es 0 st ∅) as Hact.
  pose proof (rangeExperiments_dom es d es 0 st ∅) as Hdom.
  destruct (rangeExperiments es d 0 es st ∅) as [st1 act]. simpl in *.
  subst act. apply dom_filter_L. intros k. split.
  - intros Hk. assert (Hk' : k ∈ dom (trackedExperiments st1))
      by (rewrite Hdom; set_solver).
    apply elem_of_dom in Hk' as [c Hc]. exists c. split; [done|].
    simpl. set_solver.
  - intros (c & _ & Hin). simpl in Hin. set_solver.
Qed.

(** X9: after a tick on which the store answered, the tracked ids are
    exactly the ids the store returned, whatever was tracked before. *)
Theorem tick_tracks_exactly_the_returned (d : nat -> nat)
    (es : list Experiment) (st : MonitorState) :
  dom (trackedExperiments (outerTick d (inl es) st)) = list_to_set (Id <$> es).
Proof. apply outerTick_dom. Qed.

(** X10: a tick on which the store answered treats a tracked id in one
    of two ways: when the id is among the returned experiments its entry
    is kept with the same context; otherwise its context is cancelled
    and the entry is deleted. *)
Theorem tick_keeps_or_cancels (d : nat -> nat) (es : list Experiment)
    (st : MonitorState) (id : Z) (c : nat) :
  trackedExperiments st !! id = Some c ->
  (id ∈ ids es ->
     trackedExperiments (outerTick d (inl es) st) !! id = Some c) /\
  (id ∉ ids es ->
     trackedExperiments (outerTick d (inl es) st) !! id = None /\
     c ∈ cancelled (outerTick d (inl es) st)).
Proof.
  intros Hlk. unfold outerTick, monitorNewExperiments.
  pose proof (rangeExperiments_active es d es 0 st ∅) as Hact.
  pose proof (rangeExperiments_keeps es d es id c 0 st ∅ Hlk) as Hkeep.
  destruct (rangeExperiments es d 0 es st ∅) as [st1 act]. simpl in *.
  subst act. split.
  - intros Hin. apply map_lookup_filter_Some. split; [done|]. simpl. set_solver.
  - intros Hnin. split.
    + apply map_lookup_filter_None. right. intros c' _. simpl. set_solver.
    + apply elem_of_union. right. apply elem_of_list_to_set.
      apply list_elem_of_fmap. exists (id, c). split; [done|].
      apply elem_of_map_to_list. apply map_lookup_filter_Some.
      split; [done|]. simpl. set_solver.
Qed.

Lemma tick_keeps_or_cancels_witness :
  trackedExperiments (outerTick promptStart (inl [e1; e2]) init) !! 1 = Some 0%nat /\
  (1 ∈ ids [e2] ->
     trackedExperiments
       (outerTick promptStart (inl [e2])
          (outerTick promptStart (inl [e1; e2]) init)) !! 1 = Some 0%nat) /\
  (1 ∉ ids [e2] ->
     trackedExperiments
       (outerTick promptStart (inl [e2])
          (outerTick promptStart (inl [e1; e2]) init)) !! 1 = None /\
     0%nat ∈ cancelled
       (outerTick promptStart (inl [e2])
          (outerTick promptStart (inl [e1; e2]) init))).
Proof.
  assert (Hlk : trackedExperiments (outerTick promptStart (inl [e1; e2]) init) !! 1
                = Some 0%nat) by (vm_compute; reflexivity).
  split; [exact Hlk|].
  exact (tick_keeps_or_cancels promptStart [e2]
           (outerTick promptStart (inl [e1; e2]) init) 1 0%nat Hlk).
Defined.

(** X11: a tick on which the store returns the same experiments as on
    the tick before changes nothing: no goroutine is started, no context
    is cancelled, the gauge is not touched. *)
Theorem unchanged_result_changes_nothing (d1 d2 : nat -> nat)
    (es : list Experiment) (st : MonitorState) :
  outerTick d2 (inl es) (outerTick d1 (inl es) st) = outerTick d1 (inl es) st.
Proof.
  pose proof (outerTick_dom d1 es st) as Hdom.
  set (st1 := outerTick d1 (inl es) st) in *.
  unfold outerTick at 1. unfold monitorNewExperiments.
  pose proof (rangeExperiments_active es d2 es 0 st1 ∅) as Hact.
  pose proof (rangeExperiments_all_tracked es d2 es 0 st1 ∅) as Hsame.
  destruct (rangeExperiments es d2 0 es st1 ∅) as [st2 act]. simpl in *.
  rewrite Hsame by (rewrite Hdom; done). subst act.
  apply cancelInactive_nothing_stale. rewrite Hdom. set_solver.
Qed.

(** What the loop starts: one goroutine for every id that is not yet
    tracked when the loop reaches it. *)
Lemma rangeExperiments_started (es : list Experiment) (d : nat -> nat)
    (rest : list Experiment) :
  forall (i : nat) (st : MonitorState) (act : gset Z),
    drop i es = rest ->
    exists new,
      routines (rangeExperiments es d i rest st act).1 = routines st ++ new /\
      NoDup (r_key <$> new) /\
      (forall k, k ∈ r_key <$> new <->
                 k ∈ ids rest /\ trackedExperiments st !! k = None) /\
      Forall (startedAt es d) new.
Proof.
  induction rest as [|e rest IH]; intros i st act Hdrop.
  - exists []. simpl. rewrite app_nil_r. split; [done|]. split; [constructor|].
    split; [|constructor]. intros k. split.
    + intros Hk. by apply elem_of_nil in Hk.
    + intros [Hk _]. unfold ids in Hk. simpl in Hk. set_solver.
  - assert (Hlk : es !! i = Some e).
    { replace i with (i + 0)%nat by lia. rewrite <- lookup_drop, Hdrop. done. }
    assert (Hrest : drop (S i) es = rest).
    { rewrite (drop_S _ _ _ Hlk) in Hdrop. congruence. }
    simpl. destruct (trackedExperiments st !! Id e) as [c|] eqn:He.
    + destruct (IH (S i) st ({[Id e]} ∪ act) Hrest) as (new & Hr & Hnd & Hmem & Hst).
      exists new. split; [exact Hr|]. split; [exact Hnd|]. split; [|exact Hst].
      intros k. rewrite Hmem, ids_cons. split.
      * intros [Hk Hn]. split; [set_solver|done].
      * intros [Hk Hn]. split; [|done].
        apply elem_of_union in Hk as [Hk|Hk]; [|done].
        apply elem_of_singleton in Hk. subst k. congruence.
    + match goal with
      | |- context [rangeExperiments es d (S i) rest ?st1 ?a1] =>
          destruct (IH (S i) st1 a1 Hrest) as (new & Hr & Hnd & Hmem & Hst)
      end.
      simpl in Hr, Hmem.
      eexists (_ :: new). split; [rewrite Hr; by rewrite <- app_assoc|].
      split; [|split].
      * rewrite fmap_cons. apply NoDup_cons. split; [|exact Hnd]. simpl.
        intros Hin. apply Hmem in Hin as [_ Hn].
        by rewrite lookup_insert_eq in Hn.
      * intros k. rewrite fmap_cons, elem_of_cons, Hmem, ids_cons. simpl. split.
        -- intros [->|[Hk Hn]].
           ++ split; [set_solver|done].
           ++ apply lookup_insert_None in Hn as [Hn Hne]. split; [set_solver|done].
        -- intros [Hk Hn]. destruct (decide (k = Id e)) as [->|Hne]; [by left|].
           right. split; [set_solver|]. by rewrite lookup_insert_ne.
      * apply Forall_cons. split; [|exact Hst].
        exists i, e. by repeat split.
Qed.

(** X12: a tick on which the store answered starts exactly one
    goroutine for each returned id that was not tracked, and none for an
    id that was tracked, also when the store returns an id more than
    once; goroutines started earlier stay in place. *)
Theorem tick_starts_one_goroutine_per_untracked_id (d : nat -> nat)
    (es : list Experiment) (st : MonitorState) :
  routines (outerTick d (inl es) st)
    = routines st ++ startedBy st (outerTick d (inl es) st) /\
  NoDup (r_key <$> startedBy st (outerTick d (inl es) st)) /\
  list_to_set (r_key <$> startedBy st (outerTick d (inl es) st))
    = ids es ∖ dom (trackedExperiments st).
Proof.
  unfold startedBy, outerTick, monitorNewExperiments.
  destruct (rangeExperiments_started es d es 0 st ∅ eq_refl)
    as (new & Hr & Hnd & Hmem & _).
  destruct (rangeExperiments es d 0 es st ∅) as [st1 act]. simpl in *.
  rewrite Hr, drop_app_length. split; [done|]. split; [exact Hnd|].
  apply set_eq. intros k.
  rewrite elem_of_list_to_set, Hmem, elem_of_difference, not_elem_of_dom. done.
Qed.

(** X13: every goroutine a tick starts monitors an experiment the store
    returned on that tick, found at or after the position of the
    experiment the goroutine was started for; a goroutine that runs
    before the loop moves on monitors the experiment it was started
    for. *)
Theorem started_goroutine_monitors_a_returned_experiment (d : nat -> nat)
    (es : list Experiment) (st : MonitorState) :
  Forall (fun r => exists j k e,
            (j <= k)%nat /\ es !! j = Some e /\ r_key r = Id e /\
            es !! k = Some (r_exp r) /\
            (d j = 0%nat -> r_exp r = e))
         (startedBy st (outerTick d (inl es) st)).
Proof.
  unfold startedBy, outerTick, monitorNewExperiments.
  destruct (rangeExperiments_started es d es 0 st ∅ eq_refl)
    as (new & Hr & _ & _ & Hst).
  destruct (rangeExperiments es d 0 es st ∅) as [st1 act]. simpl in *.
  rewrite Hr, drop_app_length.
  eapply Forall_impl; [exact Hst|].
  intros r (j & e & Hj & Hkey & Hexp).
  pose proof (lookup_lt_Some _ _ _ Hj) as Hlt.
  unfold loopVariable in Hexp.
  destruct (es !! ((j + d j) `min` (length es - 1))%nat) as [x|] eqn:Hx.
  - simpl in Hexp. subst x.
    exists j, ((j + d j) `min` (length es - 1))%nat, e.
    split; [lia|]. split; [done|]. split; [done|]. split; [done|].
    intros Hd0. rewrite Hd0 in Hx.
    replace ((j + 0) `min` (length es - 1))%nat with j in Hx by lia.
    congruence.
  - apply lookup_ge_None in Hx. lia.
Qed.

(** *** The gauge and the goroutines *)

Lemma uint32_idemp_add (x y : Z) :
  TrackingGauge.uint32 (TrackingGauge.uint32 x + y) = TrackingGauge.uint32 (x + y).
Proof.
  unfold TrackingGauge.uint32, TrackingGauge.uint32_modulus.
  by rewrite Zplus_mod_idemp_l.
Qed.

Lemma uint32_minus_one (x : Z) :
  TrackingGauge.uint32 (x + TrackingGauge.uint32_not 0) = TrackingGauge.uint32 (x - 1).
Proof.
  unfold TrackingGauge.uint32, TrackingGauge.uint32_modulus.
  rewrite GaugeFacts.uint32_not_0.
  replace (x + 4294967295) with (x - 1 + 1 * 2 ^ 32) by lia.
  by rewrite Z.mod_add by lia.
Qed.

Lemma NoDup_fmap_elem_inj {A B : Type} (f : A -> B) (l : list A) (x y : A) :
  NoDup (f <$> l) -> x ∈ l -> y ∈ l -> f x = f y -> x = y.
Proof.
  induction l as [|a l IH]; intros Hnd Hx Hy Heq; [by apply elem_of_nil in Hx|].
  rewrite fmap_cons in Hnd. apply NoDup_cons in Hnd as [Ha Hnd].
  apply elem_of_cons in Hx as [->|Hx]; apply elem_of_cons in Hy as [->|Hy].
  - done.
  - exfalso. apply Ha. rewrite Heq. apply list_elem_of_fmap. eauto.
  - exfalso. apply Ha. rewrite <- Heq. apply list_elem_of_fmap. eauto.
  - by apply IH.
Qed.

Lemma filter_not_exited_other (c : nat) (E : gset nat) (l : list Routine) :
  c ∉ r_ctx <$> l ->
  filter (fun r => r_ctx r ∉ {[c]} ∪ E) l = filter (fun r => r_ctx r ∉ E) l.
Proof.
  induction l as [|a l IH]; intros Hc; [done|].
  rewrite fmap_cons in Hc. apply not_elem_of_cons in Hc as [Hne Hc].
  rewrite !filter_cons, (IH Hc).
  destruct (decide (r_ctx a ∉ {[c]} ∪ E)) as [H1|H1];
    destruct (decide (r_ctx a ∉ E)) as [H2|H2]; try done; set_solver.
Qed.

(** A goroutine that returns takes exactly one element out of the live
    goroutines. *)
Lemma live_after_return (r : Routine) (E : gset nat) (l : list Routine) :
  NoDup (r_ctx <$> l) -> r ∈ l -> r_ctx r ∉ E ->
  length (filter (fun x => r_ctx x ∉ E) l)
    = S (length (filter (fun x => r_ctx x ∉ {[r_ctx r]} ∪ E) l)).
Proof.
  induction l as [|a l IH]; intros Hnd Hin HE; [by apply elem_of_nil in Hin|].
  rewrite fmap_cons in Hnd. apply NoDup_cons in Hnd as [Ha Hnd].
  rewrite !filter_cons.
  destruct (decide (r_ctx a = r_ctx r)) as [Heq|Hne].
  - rewrite <- Heq. rewrite (filter_not_exited_other (r_ctx a) E l Ha).
    rewrite decide_True by (by rewrite Heq).
    rewrite decide_False by set_solver. done.
  - apply elem_of_cons in Hin as [->|Hin]; [done|].
    specialize (IH Hnd Hin HE).
    destruct (decide (r_ctx a ∉ E)) as [H1|H1].
    + rewrite decide_True by set_solver. simpl. by rewrite IH.
    + rewrite decide_False by set_solver. exact IH.
Qed.

Lemma monitor_invariant_init : monitor_invariant init.
Proof.
  split; simpl.
  - apply tracking_invariant_init.
  - intros c Hc. set_solver.
  - intros c Hc. set_solver.
  - intros id c Hlk. by rewrite lookup_empty in Hlk.
  - reflexivity.
Qed.

(** Starting a goroutine for an untracked experiment keeps the
    invariant. *)
Lemma spawn_monitor_invariant (st : MonitorState) (e x : Experiment) :
  monitor_invariant st ->
  trackedExperiments st !! Id e = None ->
  monitor_invariant
    (mkState (<[Id e := nextCtx st]> (trackedExperiments st))
             (routines st ++ [mkRoutine (Id e) (nextCtx st) x])
             (cancelled st) (exited st)
             (TrackingGauge.inc (activeMonitoringRoutines st))
             (S (nextCtx st))).
Proof.
  intros [[Hfresh Hnd Htr] Hca Hex Htl Hg] Hlk. split; simpl.
  - split; simpl.
    + intros r Hr. apply elem_of_app in Hr as [Hr|Hr].
      * specialize (Hfresh r Hr). lia.
      * apply list_elem_of_singleton in Hr. subst r. simpl. lia.
    + rewrite fmap_app. apply NoDup_app. split; [exact Hnd|]. split.
      * intros c Hc Hc'. simpl in Hc'. apply list_elem_of_singleton in Hc'.
        subst c. apply list_elem_of_fmap in Hc as (r & Heq & Hr).
        specialize (Hfresh r Hr). lia.
      * simpl. apply NoDup_singleton.
    + intros r Hr Hnc. apply elem_of_app in Hr as [Hr|Hr].
      * specialize (Htr r Hr Hnc).
        rewrite lookup_insert_ne; [exact Htr|].
        intros Heq. rewrite Heq in Hlk. congruence.
      * apply list_elem_of_singleton in Hr. subst r. simpl.
        apply lookup_insert_eq.
  - intros c Hc. specialize (Hca c Hc). lia.
  - intros c Hc. specialize (Hex c Hc). lia.
  - intros id c Hid. destruct (decide (id = Id e)) as [->|Hne].
    + rewrite lookup_insert_eq in Hid. injection Hid as <-. split.
      * intros Hc. specialize (Hca _ Hc). lia.
      * eexists. split; [apply elem_of_app; right; by left|]. done.
    + rewrite lookup_insert_ne in Hid by done.
      destruct (Htl id c Hid) as [Hnc (r & Hr & Hk & Hc)].
      split; [exact Hnc|]. exists r. split; [|done].
      apply elem_of_app. by left.
  - unfold live in *. simpl. rewrite filter_app, length_app.
    rewrite filter_cons, filter_nil. simpl.
    rewrite decide_True by (intros Hc; specialize (Hex _ Hc); lia).
    unfold TrackingGauge.AddUint32. rewrite Hg, uint32_idemp_add.
    f_equal. simpl. lia.
Qed.

Lemma rangeExperiments_monitor_invariant (es : list Experiment) (d : nat -> nat)
    (rest : list Experiment) :
  forall (i : nat) (st : MonitorState) (act : gset Z),
    monitor_invariant st ->
    monitor_invariant (rangeExperiments es d i rest st act).1.
Proof.
  induction rest as [|e rest IH]; intros i st act Hinv; [exact Hinv|].
  simpl. destruct (trackedExperiments st !! Id e) as [c|] eqn:Hlk.
  - by apply IH.
  - apply IH. by apply spawn_monitor_invariant.
Qed.

Lemma cancelInactive_monitor_invariant (act : gset Z) (st : MonitorState) :
  monitor_invariant st -> monitor_invariant (cancelInactive act st).
Proof.
  intros [Htrk Hca Hex Htl Hg].
  assert (Hstale : forall c,
            c ∈ (map_to_list (filter (fun kv : Z * nat => kv.1 ∉ act)
                                (trackedExperiments st))).*2 ->
            exists id, trackedExperiments st !! id = Some c /\ id ∉ act).
  { intros c Hc. apply list_elem_of_fmap in Hc as ([id c'] & -> & Hin).
    apply elem_of_map_to_list, map_lookup_filter_Some in Hin as [Hlk Hn].
    by exists id. }
  split.
  - by apply cancelInactive_invariant.
  - simpl. intros c Hc. apply elem_of_union in Hc as [Hc|Hc]; [by apply Hca|].
    apply elem_of_list_to_set, Hstale in Hc as (id & Hlk & _).
    destruct (Htl id c Hlk) as [_ (r & Hr & _ & <-)].
    by apply (inv_fresh st Htrk).
  - exact Hex.
  - simpl. intros id c Hlk.
    apply map_lookup_filter_Some in Hlk as [Hlk Hin]. simpl in Hin.
    destruct (Htl id c Hlk) as [Hnc (r & Hr & Hk & Hc)].
    split; [|by exists r].
    intros Hcan. apply elem_of_union in Hcan as [Hcan|Hcan]; [done|].
    apply elem_of_list_to_set, Hstale in Hcan as (id' & Hlk' & Hnin).
    destruct (Htl id' c Hlk') as [_ (r' & Hr' & Hk' & Hc')].
    assert (r = r').
    { apply (NoDup_fmap_elem_inj r_ctx (routines st)); try done.
      - by apply (inv_nodup st Htrk).
      - congruence. }
    subst r'. congruence.
  - exact Hg.
Qed.

Lemma outerTick_monitor_invariant (d : nat -> nat)
    (res : list Experiment + string) (st : MonitorState) :
  monitor_invariant st -> monitor_invariant (outerTick d res st).
Proof.
  intros Hinv. destruct res as [es|err]; [|exact Hinv].
  unfold outerTick, monitorNewExperiments.
  pose proof (rangeExperiments_monitor_invariant es d es 0 st ∅ Hinv) as Hinv'.
  destruct (rangeExperiments es d 0 es st ∅) as [st1 act].
  by apply cancelInactive_monitor_invariant.
Qed.

Lemma routineReturns_monitor_invariant (r : Routine) (st : MonitorState) :
  monitor_invariant st ->
  r ∈ routines st -> r_ctx r ∉ exited st ->
  monitor_invariant (routineReturns (r_ctx r) st).
Proof.
  intros [Htrk Hca Hex Htl Hg] Hr Hne. split; simpl.
  - by apply routineReturns_invariant.
  - exact Hca.
  - intros c Hc. apply elem_of_union in Hc as [Hc|Hc]; [|by apply Hex].
    apply elem_of_singleton in Hc. subst c. by apply (inv_fresh st Htrk).
  - exact Htl.
  - unfold live in *. simpl.
    pose proof (live_after_return r (exited st) (routines st)
                  (inv_nodup st Htrk) Hr Hne) as Hlen.
    unfold TrackingGauge.AddUint32. rewrite Hg, uint32_idemp_add, uint32_minus_one.
    f_equal. lia.
Qed.

Lemma reachable_monitor_invariant (st : MonitorState) :
  reachable st -> monitor_invariant st.
Proof.
  unfold reachable. revert st.
  apply (rtc_ind_r monitor_invariant init).
  - apply monitor_invariant_init.
  - intros st1 st2 _ Hstep IH. destruct Hstep.
    + by apply outerTick_monitor_invariant.
    + by apply routineReturns_monitor_invariant.
Qed.

(** X14: at every moment of the monitor's run the counter of the
    "active monitoring routines" gauge (the [value] that
    [atomic.AddUint32] updates) is the number of goroutines that were
    started and whose deferred decrement has not run yet, modulo
    2^32. *)
Theorem gauge_counts_live_goroutines (st : MonitorState) :
  reachable st ->
  TrackingGauge.value (activeMonitoringRoutines st)
    = TrackingGauge.uint32 (Z.of_nat (length (live st))).
Proof.
  intros Hr. by destruct (reachable_monitor_invariant st Hr) as [_ _ _ _ Hg].
Qed.

Lemma gauge_counts_live_goroutines_witness :
  reachable flapping /\
  TrackingGauge.value (activeMonitoringRoutines flapping)
    = TrackingGauge.uint32 (Z.of_nat (length (live flapping))).
Proof.
  split; [exact flapping_reachable|].
  exact (gauge_counts_live_goroutines flapping flapping_reachable).
Defined.

(** X15: at every moment of the monitor's run a tracked id has exactly
    one goroutine whose context is not cancelled, and an id that is not
    tracked has none. *)
Theorem tracked_id_has_one_uncancelled_goroutine (st : MonitorState) (id : Z) :
  reachable st ->
  length (uncancelledFor id st)
    = match trackedExperiments st !! id with Some _ => 1%nat | None => 0%nat end.
Proof.
  intros Hr.
  destruct (reachable_monitor_invariant st Hr) as [[_ Hnd Htr] _ _ Htl _].
  unfold uncancelledFor.
  destruct (trackedExperiments st !! id) as [c|] eqn:Hlk.
  - assert (Hle : (length (filter (fun r => r_key r = id /\ r_ctx r ∉ cancelled st)
                             (routines st)) <= 1)%nat).
    { apply (filter_at_most_one r_ctx _ c); [exact Hnd|].
      intros r Hin [Hkey Hnc]. specialize (Htr r Hin Hnc).
      rewrite Hkey, Hlk in Htr. congruence. }
    destruct (Htl id c Hlk) as [Hnc (r & Hin & Hk & Hc)].
    assert (Hmem : r ∈ filter (fun r => r_key r = id /\ r_ctx r ∉ cancelled st)
                          (routines st)).
    { apply list_elem_of_filter. split; [|exact Hin]. split; [done|]. by rewrite Hc. }
    destruct (filter _ (routines st)) as [|a [|b l]]; simpl in *;
      [by apply elem_of_nil in Hmem|done|lia].
  - destruct (filter _ (routines st)) as [|a l] eqn:Hf; [done|].
    exfalso. assert (Ha : a ∈ filter (fun r => r_key r = id /\ r_ctx r ∉ cancelled st)
                               (routines st)) by (rewrite Hf; left).
    apply list_elem_of_filter in Ha as [[Hkey Hnc] Hin].
    specialize (Htr a Hin Hnc). rewrite Hkey, Hlk in Htr. discriminate Htr.
Qed.

Lemma tracked_id_has_one_uncancelled_goroutine_witness :
  reachable flapping /\
  length (uncancelledFor 1 flapping)
    = match trackedExperiments flapping !! 1 with
      | Some _ => 1%nat | None => 0%nat end.
Proof.
  split; [exact flapping_reachable|].
  exact (tracked_id_has_one_uncancelled_goroutine flapping 1 flapping_reachable).
Defined.

(** X16: while [GetExperiments] fails, the outer loop changes nothing:
    whatever ticks arrive, no goroutine is started, no context is
    cancelled and the tracked experiments stay as they are. *)
Theorem failing_store_changes_nothing (S : Type) (St : Storer S)
    (types : list string) (events : list OuterSelect) (s : S)
    (st : MonitorState) :
  (forall s0, exists s1 err, GetExperiments s0 types RUNNING = (s1, inr err)) ->
  (Run types events s st).2 = st.
Proof.
  intros Hdown. revert s. induction events as [|ev events IH]; intros s; [done|].
  destruct ev as [|d]; [done|]. simpl.
  destruct (Hdown s) as (s1 & err & ->). simpl. apply IH.
Qed.

Lemma failing_store_changes_nothing_witness :
  (forall s0 : unit, exists s1 err,
     GetExperiments (Storer := downStore) s0 ["type.googleapis.com/x"] RUNNING
       = (s1, inr err)) /\
  (Run (H := downStore) ["type.googleapis.com/x"]
       [OuterTickerC promptStart; OuterTickerC lateStart] tt
       (twoStarted promptStart)).2 = twoStarted promptStart.
Proof.
  assert (Hdown : forall s0 : unit, exists s1 err,
            GetExperiments (Storer := downStore) s0 ["type.googleapis.com/x"] RUNNING
              = (s1, inr err)) by (intros s0; by eexists _, _).
  split; [exact Hdown|].
  exact (failing_store_changes_nothing unit downStore ["type.googleapis.com/x"]
           [OuterTickerC promptStart; OuterTickerC lateStart] tt
           (twoStarted promptStart) Hdown).
Defined.

End OuterMore.

(* ===================================================================== *)
(** ** More on the gauge *)
(* ===================================================================== *)

Module GaugeMore.

Import TrackingGauge.

Lemma iter_inc_value (n : nat) (t : trackingGauge) :
  wf t -> value (Nat.iter n inc t) = uint32 (value t + Z.of_nat n).
Proof.
  intros Hwf. induction n as [|n IH].
  - simpl. rewrite Z.add_0_r. unfold uint32. symmetry. by apply Z.mod_small.
  - simpl. unfold AddUint32. rewrite IH, OuterMore.uint32_idemp_add.
    f_equal. lia.
Qed.

(** X17: the gauge counts modulo 2^32: after [n] increments and [m]
    decrements of a gauge holding [v], it holds [(v + n - m) mod 2^32];
    as many decrements as increments restore the value. *)
Theorem gauge_is_increments_minus_decrements (n m : nat) (t : trackingGauge) :
  wf t ->
  value (Nat.iter m dec (Nat.iter n inc t))
    = uint32 (value t + Z.of_nat n - Z.of_nat m) /\
  value (Nat.iter n dec (Nat.iter n inc t)) = value t.
Proof.
  intros Hwf.
  assert (Hgen : forall k, value (Nat.iter k dec (Nat.iter n inc t))
                           = uint32 (value t + Z.of_nat n - Z.of_nat k)).
  { induction k as [|k IH].
    - simpl. rewrite Z.sub_0_r. by apply iter_inc_value.
    - simpl. unfold AddUint32.
      rewrite IH, OuterMore.uint32_idemp_add, OuterMore.uint32_minus_one.
      f_equal. lia. }
  split; [apply Hgen|].
  rewrite Hgen. replace (value t + Z.of_nat n - Z.of_nat n) with (value t) by lia.
  unfold uint32. by apply Z.mod_small.
Qed.

Lemma gauge_is_increments_minus_decrements_witness :
  wf new /\
  value (Nat.iter 5 dec (Nat.iter 3 inc new))
    = uint32 (value new + Z.of_nat 3 - Z.of_nat 5) /\
  value (Nat.iter 3 dec (Nat.iter 3 inc new)) = value new.
Proof.
  assert (Hwf : wf new) by (unfold wf, new, uint32_modulus; simpl; lia).
  split; [exact Hwf|].
  exact (gauge_is_increments_minus_decrements 3 5 new Hwf).
Defined.

End GaugeMore.

(* ===================================================================== *)
(** ** The test helper [awaitCounterEquals] *)
(* ===================================================================== *)

Module AwaitFacts.

Import Await.

(** X18: [awaitCounterEquals] returns without reporting an error exactly
    when some poll reads the awaited value (a counter that is missing
    from the snapshot reads as 0) and every earlier poll read another
    value and then waited 100ms; what the [select] of that poll would
    receive, the timeout included, does not matter. *)
Theorem await_returns_iff_value_seen_in_time
    (polls : list (gmap string Z * AwaitSelect)) (counter : string) (value : Z) :
  awaitCounterEquals polls counter value = AwaitReturned <->
  exists k counters sel,
    polls !! k = Some (counters, sel) /\
    counterValue counters counter = value /\
    forall j, (j < k)%nat ->
      exists counters',
        polls !! j = Some (counters', After100ms) /\
        counterValue counters' counter <> value.
Proof.
  induction polls as [|[counters sel] polls IH].
  - simpl. split; [discriminate|]. intros (k & c & s & Hk & _). discriminate Hk.
  - simpl. destruct (decide (value = counterValue counters counter)) as [Heq|Hne].
    + split; [intros _|done].
      exists 0%nat, counters, sel. split; [done|]. split; [done|]. intros j Hj. lia.
    + destruct sel.
      * split; [discriminate|].
        intros ([|k] & c & s & Hk & Hv & Hbefore).
        -- simpl in Hk. injection Hk as <- <-. congruence.
        -- destruct (Hbefore 0%nat) as (c' & Hc' & _); [lia|]. discriminate Hc'.
      * rewrite IH. split.
        -- intros (k & c & s & Hk & Hv & Hbefore).
           exists (S k), c, s. split; [done|]. split; [done|].
           intros [|j] Hj.
           ++ exists counters. split; [done|]. congruence.
           ++ apply Hbefore. lia.
        -- intros ([|k] & c & s & Hk & Hv & Hbefore).
           ++ simpl in Hk. injection Hk as <- <-. congruence.
           ++ exists k, c, s. split; [done|]. split; [done|].
              intros j Hj. destruct (Hbefore (S j)) as (c' & Hc' & Hv'); [lia|].
              by exists c'.
Qed.

(** X19: when [awaitCounterEquals] reports a timeout, the last value it
    names was read from a snapshot, differs from the awaited value, and
    the timer fired on that very poll. *)
Theorem await_timeout_names_last_value
    (polls : list (gmap string Z * AwaitSelect)) (counter : string)
    (value last : Z) :
  awaitCounterEquals polls counter value = AwaitTimedOut last ->
  last <> value /\
  exists k counters,
    polls !! k = Some (counters, TimeoutC) /\
    counterValue counters counter = last.
Proof.
  induction polls as [|[counters sel] polls IH]; [discriminate|].
  simpl. destruct (decide (value = counterValue counters counter)) as [Heq|Hne];
    [discriminate|].
  destruct sel.
  - intros Hres. injection Hres as <-. split; [congruence|].
    by exists 0%nat, counters.
  - intros Hres. destruct (IH Hres) as [Hl (k & c & Hk & Hv)].
    split; [exact Hl|]. by exists (S k), c.
Qed.

Lemma await_timeout_names_last_value_witness :
  awaitCounterEquals
    [({["test.v3.totalErrorsReceived+" := 0]}, After100ms);
     (∅, TimeoutC)]
    "test.v3.totalErrorsReceived+" 1 = AwaitTimedOut 0 /\
  0 <> 1 /\
  exists k counters,
    [({["test.v3.totalErrorsReceived+" := 0]} : gmap string Z, After100ms);
     (∅, TimeoutC)] !! k = Some (counters, TimeoutC) /\
    counterValue counters "test.v3.totalErrorsReceived+" = 0.
Proof.
  assert (Hrun : awaitCounterEquals
            [({["test.v3.totalErrorsReceived+" := 0]}, After100ms);
             (∅, TimeoutC)]
            "test.v3.totalErrorsReceived+" 1 = AwaitTimedOut 0)
    by (vm_compute; reflexivity).
  split; [exact Hrun|].
  exact (await_timeout_names_last_value _ _ 1 0 Hrun).
Defined.

End AwaitFacts.

(* ===================================================================== *)
(** ** Shutting the outer loop down *)
(* ===================================================================== *)

Module RunFacts.

Import Outer.

(** X20: when the [select] of [Run] takes its [ctx.Done()] branch, the
    goroutine of the outer loop returns: events that arrive after that
    are not served, and the branch itself starts no goroutine, cancels
    no context of an inner loop and does not touch the gauge, so the
    state is the one the ticks taken before it produced.  (Which branch
    a [select] takes when both channels are ready is the scheduler's
    choice; the list of events is that choice.) *)
Theorem cancelling_Run_stops_the_outer_loop_only (S : Type) (St : Storer S)
    (types : list string) (before after : list OuterSelect) (s : S)
    (st : MonitorState) :
  Run types (before ++ OuterCtxDone :: after) s st = Run types before s st.
Proof.
  revert s st. induction before as [|ev before IH]; intros s st; [done|].
  destruct ev as [|d]; [done|]. simpl.
  destruct (GetExperiments s types RUNNING) as [s' res]. apply IH.
Qed.

End RunFacts.
